(** * Neko-assistant: the memory graph, its ranking and its two pipelines

    A shallow embedding of
      - [memory/utils.py]                 (cosine ranking over embeddings),
      - [memory/memory_manager.py]        (the node and edge records),
      - [memory/sqlite_memory_manager.py] (the three SQLite tables),
      - [llm/utils.py]                    (the bounded retry around the model),
      - [run.py]                          (retrieval and ingestion),
    followed by the properties of the specification that were checked
    against it.

    Conventions of the embedding.
      - A Python [float] and a numpy [float64] are IEEE 754 binary64 values:
        [spec_float] with 53 bits of precision and maximal exponent 1024.
      - A Python exception is a value of [exn]; a function that can raise
        returns a [result].
      - A table is the list of its rows in rowid order; the primary key is
        kept unique by [INSERT OR IGNORE].
      - The embedding service, the string scorer of rapidfuzz, the replies
        of the language model and the clock are arguments. *)

From Stdlib Require Import ZArith String Ascii Bool Lia Arith.
From Stdlib Require Import SpecFloat DecimalString DecimalNat.
From Stdlib Require Import List Permutation Sorted.
Import ListNotations.

Local Open Scope string_scope.
Local Open Scope list_scope.

(* ================================================================= *)
(** * Part I: definitions *)
(* ================================================================= *)

(** ** IEEE 754 binary64 *)

Module Float64.

Definition float : Type := spec_float.

Definition prec : Z := 53.
Definition emax : Z := 1024.

Definition add : float -> float -> float := SFadd prec emax.
Definition mul : float -> float -> float := SFmul prec emax.
Definition div : float -> float -> float := SFdiv prec emax.
Definition sqrt : float -> float := SFsqrt prec emax.

Definition eqb : float -> float -> bool := SFeqb.
Definition ltb : float -> float -> bool := SFltb.
Definition leb : float -> float -> bool := SFleb.

Definition zero : float := S754_zero false.
Definition nan : float := S754_nan.

(** The float nearest to an integer: [float(z)]. *)
Definition of_Z (z : Z) : float := binary_normalize prec emax z 0 false.

Definition one : float := of_Z 1.

Definition is_nan (x : float) : bool :=
  match x with S754_nan => true | _ => false end.

(** [x >= y] of Python and numpy. *)
Definition geb (x y : float) : bool := leb y x.

(** [x != y] of Python and numpy: true as soon as one side is a NaN. *)
Definition neqb (x y : float) : bool := negb (eqb x y).

End Float64.

(** ** Exceptions *)

(** [ValueError msg] is a [raise ValueError(msg)] written in the repository.
    [NumpyShapeError] stands for the exception numpy raises by itself on an
    array it cannot build or multiply (ragged rows, an axis that does not
    exist, operands of different dimensions); its message is numpy's.
    [AttributeError] is the attribute access on [None], [IndexError] a list
    index out of range. *)
Inductive exn : Type :=
| ValueError (msg : string)
| NumpyShapeError
| AttributeError
| IndexError.

Inductive result (A : Type) : Type :=
| Ok (a : A)
| Raise (e : exn).

Arguments Ok {A} a.
Arguments Raise {A} e.

Definition bind {A B : Type} (m : result A) (k : A -> result B) : result B :=
  match m with
  | Ok a => k a
  | Raise e => Raise e
  end.

Notation "x <- m ;; k" := (bind m (fun x => k))
  (at level 61, m at next level, right associativity).
Notation "' pat <- m ;; k" := (bind m (fun x => match x with pat => k end))
  (at level 61, pat pattern, m at next level, right associativity).

(** [l[i]] of Python for a non-negative index. *)
Definition getitem {A : Type} (l : list A) (i : nat) : result A :=
  match nth_error l i with
  | Some a => Ok a
  | None => Raise IndexError
  end.

(** [for x in l] with a body that can raise. *)
Fixpoint mapM {A B : Type} (f : A -> result B) (l : list A) : result (list B) :=
  match l with
  | [] => Ok []
  | a :: l' => b <- f a ;; bs <- mapM f l' ;; Ok (b :: bs)
  end.

(** ** [memory/utils.py] *)

Module Utils.

Import Float64.

(** Sum of a sequence of floats, accumulated from the left.  numpy leaves
    the order of a reduction to the kernel in use (pairwise, blocked or
    fused), so the last bit of a sum that is not exact can differ from
    the one computed here.  The statements below that evaluate a sum do
    so on sums of zeros and ones, which every order computes exactly. *)
Definition fsum (l : list float) : float :=
  match l with
  | [] => zero
  | x :: t => fold_left add t x
  end.

Fixpoint zip_mul (a b : list float) : list float :=
  match a, b with
  | x :: a', y :: b' => mul x y :: zip_mul a' b'
  | _, _ => []
  end.

(** [np.dot] on two vectors of the same length. *)
Definition dot (a b : list float) : float := fsum (zip_mul a b).

(** [np.linalg.norm] of a vector. *)
Definition norm (v : list float) : float :=
  sqrt (fsum (map (fun x => mul x x) v)).

(** [np.dot] refuses two vectors of different lengths. *)
Definition cosine_similarity (vec_a vec_b : list float) : result float :=
  if Nat.eqb (length vec_a) (length vec_b) then
    let dot_product := dot vec_a vec_b in
    let norm_a := norm vec_a in
    let norm_b := norm vec_b in
    Ok (div dot_product (mul norm_a norm_b))
  else Raise NumpyShapeError.

(** The order numpy sorts floats by: [<] on numbers, every NaN after
    every number. *)
Definition np_lt (a b : float) : bool :=
  ltb a b || (is_nan b && negb (is_nan a)).

Definition np_le (a b : float) : bool := negb (np_lt b a).

(** [np.argsort]: the indices of [l] in ascending order of their values,
    every NaN after every number.  Where two values are equal numpy's
    default sort does not say which index comes first, and on some inputs
    it does not keep the original order; the insertion sort below keeps
    it.  Nothing below is stated about the place of an index among the
    indices of values equal to its own. *)
Fixpoint insert_by (x : nat * float) (l : list (nat * float)) : list (nat * float) :=
  match l with
  | [] => [x]
  | y :: l' => if np_lt (snd y) (snd x) then y :: insert_by x l'
               else x :: y :: l'
  end.

(** The order of two indexed values. *)
Definition le_pair (x y : nat * float) : Prop := np_le (snd x) (snd y) = true.

Definition enumerate (l : list float) : list (nat * float) :=
  combine (seq 0 (length l)) l.

Definition argsort (l : list float) : list nat :=
  map fst (fold_right insert_by [] (enumerate l)).

(** Line 32: the query is divided by its norm unless the norm is zero. *)
Definition normalize_query (query_vector : list float) : list float :=
  let query_norm := norm query_vector in
  if neqb query_norm zero
  then map (fun x => div x query_norm) query_vector
  else query_vector.

(** Line 33: every row is divided by its own norm. *)
Definition normalize_items (items_matrix : list (list float)) : list (list float) :=
  map (fun row => let n := norm row in map (fun x => div x n) row) items_matrix.

(** The entry of [similarities] for one row: the row divided by its norm,
    times the normalized query. *)
Definition similarity (query_embeddings row : list float) : float :=
  dot (map (fun x => div x (norm row)) row) (normalize_query query_embeddings).

(** The shapes numpy accepts: at least one row (otherwise [axis=1] does
    not exist), all rows of one length, and that length the length of
    the query (otherwise [@] fails). *)
Definition shapes_ok (query_embeddings : list float)
           (items_embeddings : list (list float)) : bool :=
  match items_embeddings with
  | [] => false
  | _ => forallb (fun row => Nat.eqb (length row) (length query_embeddings))
                 items_embeddings
  end.

Definition sort_items_by_relevance (query_embeddings : list float)
           (items_embeddings : list (list float))
  : result (list float * list nat) :=
  if shapes_ok query_embeddings items_embeddings then
    let query_vector := normalize_query query_embeddings in
    let items_matrix := normalize_items items_embeddings in
    let similarities := map (fun row => dot row query_vector) items_matrix in
    let sorted_indices := rev (argsort similarities) in
    Ok (similarities, sorted_indices)
  else Raise NumpyShapeError.

End Utils.

(** ** [memory/memory_manager.py] *)

Definition newline : string := String (ascii_of_nat 10) EmptyString.

Definition MESSAGE_SEPERATOR : string :=
  (newline ++ "<message seperator>" ++ newline)%string.

(** [sep.join(l)]. *)
Definition join (sep : string) (l : list string) : string := String.concat sep l.

(** [s.split(sep)] for a non-empty [sep]: cut at the occurrences of [sep]
    found from the left, none overlapping the one before it.  [skip] counts
    the characters of a separator just matched that are still to be passed
    over, [cur] is the piece being read. *)
Fixpoint split_from (sep : string) (skip : nat) (cur s : string) : list string :=
  match s with
  | EmptyString => [cur]
  | String c s' =>
      match skip with
      | S k => split_from sep k cur s'
      | O => if String.prefix sep s
             then cur :: split_from sep (String.length sep - 1) EmptyString s'
             else split_from sep 0 (cur ++ String c EmptyString)%string s'
      end
  end.

Definition split (sep s : string) : list string := split_from sep 0 EmptyString s.

(** Does an occurrence of [sep] in [m ++ tail] start inside [m]? *)
Fixpoint starts_inside (sep m tail : string) : bool :=
  match m with
  | EmptyString => false
  | String c m' => String.prefix sep (m ++ tail)%string || starts_inside sep m' tail
  end.

(** [sep in s] for a non-empty [sep]. *)
Definition contains (sep s : string) : bool := starts_inside sep s EmptyString.

(** [s.endswith(suf)]. *)
Fixpoint ends_with (suf s : string) : bool :=
  String.eqb s suf
  || match s with
     | EmptyString => false
     | String _ s' => ends_with suf s'
     end.

(** [s[n:]]. *)
Fixpoint string_drop (n : nat) (s : string) : string :=
  match n, s with
  | S n', String _ s' => string_drop n' s'
  | _, _ => s
  end.

(** The lists of pieces a joined string is cut back into: at least one
    piece, no separator starting inside a piece that is followed by one,
    none in the last piece. *)
Fixpoint separable (sep : string) (ms : list string) : Prop :=
  match ms with
  | [] => False
  | [m] => contains sep m = false
  | m :: ms' => starts_inside sep m sep = false /\ separable sep ms'
  end.

(** The separator without its final newline. *)
Definition SEPERATOR_HEAD : string := (newline ++ "<message seperator>")%string.

(** [embeddings if embeddings else []]: [None] and [[]] both give [[]]. *)
Definition or_empty (embeddings : option (list Float64.float)) : list Float64.float :=
  match embeddings with
  | Some e => e
  | None => []
  end.

Record MemoryNode : Type := mkMemoryNode {
  node_id : string;
  embeddings : list Float64.float;
  content : string
}.

Record KeywordNode : Type := mkKeywordNode {
  keyword_base :> MemoryNode;
  keyword : string
}.

Record MessageBlock : Type := mkMessageBlock {
  block_base :> MemoryNode;
  messages : list string;
  timestamp : string;
  title : string
}.

Record RelationEdge : Type := mkRelationEdge {
  relation_id : string;
  source : string;
  target : string;
  relation_type : string;
  relation_desc : string;
  relation_embeddings : list Float64.float
}.

(** [KeywordNode.__init__]. *)
Definition new_KeywordNode (keyword_id keyword : string) (content : string)
           (embeddings : option (list Float64.float)) : KeywordNode :=
  mkKeywordNode (mkMemoryNode keyword_id (or_empty embeddings) content) keyword.

(** [MessageBlock.__init__]; [now] is the reading of the clock used when no
    timestamp is given. *)
Definition new_MessageBlock (now : string) (block_id : string)
           (messages : list string) (timestamp title : string)
           (embeddings : option (list Float64.float)) : MessageBlock :=
  let content := join MESSAGE_SEPERATOR messages in
  mkMessageBlock (mkMemoryNode block_id (or_empty embeddings) content)
                 messages
                 (if String.eqb timestamp "" then now else timestamp)
                 title.

(** [message_block.embeddings = e]. *)
Definition set_embeddings (b : MessageBlock) (e : list Float64.float) : MessageBlock :=
  mkMessageBlock (mkMemoryNode (node_id b) e (content b))
                 (messages b) (timestamp b) (title b).

(** [RelationEdge.__init__]. *)
Definition new_RelationEdge (relation_id source target relation_type relation_desc : string)
           (embeddings : option (list Float64.float)) : RelationEdge :=
  mkRelationEdge relation_id source target relation_type relation_desc
                 (or_empty embeddings).

(** [RelationEdge.__eq__]: two edges are equal when their ids are. *)
Definition RelationEdge_eq (a b : RelationEdge) : bool :=
  String.eqb (relation_id a) (relation_id b).

(** ** [memory/sqlite_memory_manager.py] *)

(** The text of the [embeddings] column.  [str_of_float] is [str] on a
    float and [float_of_str] is [float] on a string ([None] when it raises
    ValueError). *)
Section EmbeddingsColumn.

Variable F : Type.
Variable str_of_float : F -> string.
Variable float_of_str : string -> option F.

Definition _serialize_embeddings (embeddings : option (list F)) : string :=
  match embeddings with
  | Some (x :: l) => join "," (map str_of_float (x :: l))
  | _ => ""
  end.

Fixpoint floats_of (pieces : list string) : option (list F) :=
  match pieces with
  | [] => Some []
  | p :: ps =>
      match float_of_str p, floats_of ps with
      | Some x, Some xs => Some (x :: xs)
      | _, _ => None
      end
  end.

Definition _deserialize_embeddings (embeddings_str : string) : option (list F) :=
  if String.eqb embeddings_str "" then Some []
  else floats_of (split "," embeddings_str).

End EmbeddingsColumn.

(** A row of [message_blocks]: the [messages] column holds the joined
    content of the block. *)
Record BlockRow : Type := mkBlockRow {
  row_block_id : string;
  row_messages : string;
  row_title : string;
  row_timestamp : string;
  row_embeddings : list Float64.float
}.

(** The database: a row of [keywords] has the fields of a [KeywordNode], a
    row of [relations] those of a [RelationEdge].  The [embeddings] columns
    are kept decoded: what is written to them is the text of
    [_serialize_embeddings] and what is read is that text through
    [_deserialize_embeddings]. *)
Record Store : Type := mkStore {
  keywords : list KeywordNode;
  message_blocks : list BlockRow;
  relations : list RelationEdge
}.

Definition empty_store : Store := mkStore [] [] [].

(** A store whose embeddings of keywords and relations all have [dim]
    entries. *)
Definition uniform (dim : nat) (st : Store) : Prop :=
  (forall k : KeywordNode, In k (keywords st) -> length (embeddings k) = dim)
  /\ (forall r, In r (relations st) -> length (relation_embeddings r) = dim).

(** [INSERT OR IGNORE]: the row is appended unless a row with its primary
    key is in the table. *)
Definition insert_or_ignore {R : Type} (key : R -> string) (row : R)
           (table : list R) : list R :=
  if existsb (fun r => String.eqb (key r) (key row)) table
  then table
  else table ++ [row].

Definition add_keyword (st : Store) (k : KeywordNode) : Store :=
  mkStore (insert_or_ignore (fun r : KeywordNode => node_id r) k (keywords st))
          (message_blocks st) (relations st).

Definition add_message_block (st : Store) (b : MessageBlock) : Store :=
  mkStore (keywords st)
          (insert_or_ignore row_block_id
             (mkBlockRow (node_id b) (content b) (title b) (timestamp b) (embeddings b))
             (message_blocks st))
          (relations st).

Definition add_relation (st : Store) (r : RelationEdge) : Store :=
  mkStore (keywords st) (message_blocks st)
          (insert_or_ignore relation_id r (relations st)).

Definition link_messages (st : Store) (r : RelationEdge) : Store := add_relation st r.

Definition add_message (st : Store) (message_block : MessageBlock)
           (kws : list KeywordNode) (rels : list RelationEdge) : Store :=
  let st1 := add_message_block st message_block in
  let st2 := fold_left add_keyword kws st1 in
  fold_left link_messages rels st2.

(** [SELECT * FROM t WHERE p] answered by a scan of the table: the rows
    that satisfy [p], in the order of the table.  The statements that
    read the whole table, or test a column without an index, are answered
    this way. *)
Definition select {R : Type} (p : R -> bool) (table : list R) : list R := filter p table.

(** The rows in ascending order of their primary key, compared byte by
    byte as the BINARY collation of SQLite does. *)
Fixpoint insert_by_key {R : Type} (key : R -> string) (row : R) (rows : list R)
  : list R :=
  match rows with
  | [] => [row]
  | x :: rows' =>
      if String.leb (key row) (key x) then row :: x :: rows'
      else x :: insert_by_key key row rows'
  end.

Definition order_by_key {R : Type} (key : R -> string) (rows : list R) : list R :=
  fold_right (insert_by_key key) [] rows.

(** [SELECT * FROM t WHERE key IN (ids)] on a table whose primary key is
    the text column [key]: SQLite looks each id up in the index of the
    primary key, and the rows come in the order of their keys. *)
Definition select_in {R : Type} (key : R -> string) (ids : list string)
           (table : list R) : list R :=
  order_by_key key (select (fun row => existsb (String.eqb (key row)) ids) table).

Definition get_keyword (st : Store) (keyword_id : string) : result KeywordNode :=
  match select (fun k : KeywordNode => String.eqb (node_id k) keyword_id) (keywords st) with
  | row :: _ => Ok row
  | [] => Raise (ValueError ("Keyword with ID " ++ keyword_id ++ " not found."))
  end.

(** [now] is only read by the constructor when the stored timestamp is
    empty. *)
Definition get_message_block (now : string) (st : Store) (block_id : string)
  : result MessageBlock :=
  match select (fun b => String.eqb (row_block_id b) block_id) (message_blocks st) with
  | row :: _ =>
      Ok (new_MessageBlock now (row_block_id row)
            (split MESSAGE_SEPERATOR (row_messages row))
            (row_timestamp row) (row_title row) (Some (row_embeddings row)))
  | [] => Raise (ValueError ("Message block with ID " ++ block_id ++ " not found."))
  end.

Definition get_relation_by_node (st : Store) (node_id : string) : list RelationEdge :=
  select (fun r => String.eqb (source r) node_id || String.eqb (target r) node_id)
         (relations st).

(** A Python [dict] with string keys and values, in insertion order. *)
Definition dict : Type := list (string * string).

(** [d[k] = v]: a key already present keeps its place. *)
Fixpoint dict_set (d : dict) (k v : string) : dict :=
  match d with
  | [] => [(k, v)]
  | (k', v') :: d' =>
      if String.eqb k' k then (k', v) :: d' else (k', v') :: dict_set d' k v
  end.

(** [d[k]], a list with the value or nothing when the key is missing. *)
Fixpoint dict_get (d : dict) (k : string) : list string :=
  match d with
  | [] => []
  | (k', v') :: d' => if String.eqb k' k then [v'] else dict_get d' k
  end.

Section Search.

(** [rapidfuzz.fuzz.ratio]: a score between 0 and 100. *)
Variable fuzz_ratio : string -> string -> Float64.float.

(** [rapidfuzz.process.extract(query, choices, scorer=..., limit=None)]:
    every choice with its score.  The library returns them by descending
    score; the caller only keeps the set of the choices. *)
Definition extract (query : string) (choices : list string)
  : list (string * Float64.float) :=
  map (fun choice => (choice, fuzz_ratio query choice)) choices.

Definition search_keywords (st : Store) (query : string) (threshold : Z)
  : list KeywordNode :=
  if String.eqb query "" then select (fun _ => true) (keywords st)
  else
    let rows := keywords st in
    match rows with
    | [] => []
    | _ =>
        let keyword_dict :=
          fold_left (fun d (row : KeywordNode) => dict_set d (keyword row) (node_id row))
                    rows [] in
        let matches := extract query (map fst keyword_dict) in
        let filtered_matches :=
          filter (fun m => Float64.geb (snd m) (Float64.of_Z threshold)) matches in
        let matching_ids :=
          flat_map (fun m => dict_get keyword_dict (fst m)) filtered_matches in
        select_in (fun k : KeywordNode => node_id k) matching_ids (keywords st)
    end.

End Search.

(** The parameter [embeddings] of the source is [query_embeddings] here. *)
Definition search_keywords_by_embedding (st : Store)
           (query_embeddings : list Float64.float) (threshold : Float64.float)
  : result (list KeywordNode) :=
  if Nat.eqb (length query_embeddings) 0
  then Raise (ValueError "Empty Input embeddings")
  else
    let rows := keywords st in
    match rows with
    | [] => Ok []
    | _ =>
        let embeddings_arr := map (fun row : KeywordNode => embeddings row) rows in
        '(similarities, ranks) <-
           Utils.sort_items_by_relevance query_embeddings embeddings_arr ;;
        matching_ids <-
           mapM (fun p : nat * Float64.float =>
                   r <- getitem ranks (fst p) ;;
                   row <- getitem rows r ;;
                   Ok (node_id (row : KeywordNode)))
                (filter (fun p => Float64.geb (snd p) threshold)
                        (Utils.enumerate similarities)) ;;
        Ok (select_in (fun k : KeywordNode => node_id k) matching_ids (keywords st))
    end.

(** ** [llm/utils.py] *)

(** One reply of the model as [parse_to_dict] leaves it: [None] when no
    JSON object is found in the reply or when it does not decode.  The
    model is the sequence of its replies. *)
Definition llm : Type := nat -> option dict.

(** [if rst:] on an [Optional[Dict]]. *)
Definition truthy (rst : option dict) : bool :=
  match rst with
  | Some (_ :: _) => true
  | _ => false
  end.

(** The loop [while cnt < max_retry]; [calls] counts the replies read so
    far and [fuel] is [max_retry - cnt]. *)
Fixpoint retry_loop (model : llm) (calls fuel : nat) : option dict * nat :=
  match fuel with
  | O => (None, calls)
  | S fuel' =>
      let rst := model calls in
      if truthy rst then (rst, S calls)
      else retry_loop model (S calls) fuel'
  end.

(** The parsed mapping, or [None], and the number of calls made. *)
Definition generate_summary_dict (model : llm) (max_retry : nat) : option dict * nat :=
  retry_loop model 0 max_retry.

(** ** [run.py] *)

Definition select_elements {A : Type} (lst : list A) (indices : list nat) : list A :=
  flat_map (fun i => match nth_error lst i with Some x => [x] | None => [] end) indices.

(** [str(n)] for a counter. *)
Definition str_of_nat (n : nat) : string := NilEmpty.string_of_uint (Nat.to_uint n).

(** The first edge of each id, in the order of [l]: the members of [set(l)]. *)
Fixpoint dedup (l : list RelationEdge) : list RelationEdge :=
  match l with
  | [] => []
  | r :: l' => r :: filter (fun r' => negb (RelationEdge_eq r' r)) (dedup l')
  end.

Section Pipelines.

Variable fuzz_ratio : string -> string -> Float64.float.

(** [embedding_model.embed_query]. *)
Variable embed_query : string -> list Float64.float.

(** The order in which Python iterates over a set of edges: it depends
    on the hashes of the ids. *)
Variable set_order : list RelationEdge -> list RelationEdge.

Definition list_of_set (l : list RelationEdge) : list RelationEdge :=
  set_order (dedup l).

(** Lines 78 to 81: the keywords found for the component [k], by their
    label and, when none is found, by the embedding of the subquery. *)
Definition matched_keywords (st : Store) (k : string)
           (query_embedding : list Float64.float) : result (list KeywordNode) :=
  let kws := search_keywords fuzz_ratio st k 70 in
  match kws with
  | [] => search_keywords_by_embedding st query_embedding
            (Float64.div (Float64.of_Z 1) (Float64.of_Z 2))
  | _ => Ok kws
  end.

(** Lines 83 to 85: the relations of all these keywords, one after the
    other. *)
Definition attached_relations (st : Store) (kws : list KeywordNode) : list RelationEdge :=
  flat_map (fun kw : KeywordNode => get_relation_by_node st (node_id kw)) kws.

(** The body of the loop of [retrieve_relevant_memory] for one item
    [(k, v)] of the decomposed query, from the lines found so far to the
    lines after it. *)
Definition retrieve_step (st : Store) (memory : list string) (kv : string * string)
  : result (list string) :=
  let '(k, v) := kv in
  let query_embedding := embed_query v in
  kws <- matched_keywords st k query_embedding ;;
  let rels := attached_relations st kws in
  match rels with
  | [] => Ok memory
  | _ =>
      let rels := list_of_set rels in
      let possible_embeddings := map relation_embeddings rels in
      '(similarities, ranks) <-
         Utils.sort_items_by_relevance query_embedding possible_embeddings ;;
      let selected_relations := select_elements rels (firstn 1 ranks) in
      _ <- getitem similarities 0 ;;
      _ <- getitem selected_relations 0 ;;
      Ok (memory ++ map relation_desc selected_relations)
  end.

Fixpoint retrieve_loop (st : Store) (memory : list string) (items : dict)
  : result (list string) :=
  match items with
  | [] => Ok memory
  | kv :: items' =>
      memory' <- retrieve_step st memory kv ;;
      retrieve_loop st memory' items'
  end.

Definition retrieve_relevant_memory (st : Store) (model : llm) : result string :=
  match fst (generate_summary_dict model 3) with
  | None => Raise AttributeError
  | Some query_dict =>
      memory <- retrieve_loop st [] query_dict ;;
      Ok (join newline memory)
  end.

(** Where the line of one item [(k, v)] of the decomposed query comes
    from: no relation when its keywords have none, and otherwise a relation
    attached to one of its keywords. *)
Definition contribution (st : Store) (kv : string * string)
           (pick : option RelationEdge) : Prop :=
  exists kws,
    matched_keywords st (fst kv) (embed_query (snd kv)) = Ok kws /\
    match pick with
    | None => attached_relations st kws = []
    | Some r => In r (attached_relations st kws)
    end.

Definition line_of (pick : option RelationEdge) : list string :=
  match pick with
  | Some r => [relation_desc r]
  | None => []
  end.

(** The state of the loop of [process_messages_and_save_to_memory]. *)
Record ingest_state : Type := mkIngest {
  ing_keywords : list KeywordNode;
  ing_relations : list RelationEdge;
  ing_cnt : nat
}.

Definition ingest_step (st : Store) (block_id : string) (s : ingest_state)
           (kv : string * string) : ingest_state :=
  let '(k, v) := kv in
  let matched_keywords := search_keywords fuzz_ratio st k 70 in
  let key := match matched_keywords with
             | [] => k
             | m :: _ => node_id m
             end in
  let '(kws, rels) :=
    match matched_keywords with
    | [] =>
        let key_embd := embed_query v in
        (ing_keywords s ++ [new_KeywordNode key key "" (Some key_embd)],
         ing_relations s)
    | m :: _ =>
        let rels := get_relation_by_node st (node_id m) in
        let desc := join newline (map relation_desc rels) in
        let key_embd := embed_query (desc ++ newline ++ v)%string in
        (ing_keywords s ++ [new_KeywordNode key key "" (Some key_embd)],
         rels)
    end in
  let rid := (str_of_nat (ing_cnt s) ++ "-" ++ block_id)%string in
  let cnt := S (ing_cnt s) in
  mkIngest kws
           (rels ++ [new_RelationEdge rid k block_id "describes" v
                                      (Some (embed_query v))])
           cnt.

(** [t_id] and [t_stamp] are the two readings of the clock: the one put
    in the block id and the one the constructor takes as timestamp. *)
Definition process_messages_and_save_to_memory (t_id t_stamp : string)
           (msgs : list string) (st : Store) (model : llm)
  : Store * result unit :=
  let block_id := ("msg-" ++ t_id)%string in
  let message_block := new_MessageBlock t_stamp block_id msgs "" "" None in
  let message_block := set_embeddings message_block (embed_query (content message_block)) in
  match fst (generate_summary_dict model 3) with
  | None => (st, Raise AttributeError)
  | Some summary_dict =>
      let s := fold_left (ingest_step st block_id) summary_dict (mkIngest [] [] 0) in
      (add_message st message_block (ing_keywords s) (ing_relations s), Ok tt)
  end.

End Pipelines.

(** ** More of [run.py] *)

(** The literal [0.8]: the float nearest to four fifths. *)
Definition f_0_8 : Float64.float := Float64.div (Float64.of_Z 4) (Float64.of_Z 5).

Definition _choose_ranks (similarities : list Float64.float) (ranks : list nat)
  : result (list nat) :=
  if negb (Nat.eqb (length similarities) (length ranks))
  then Raise (ValueError "The lengths of similarities and ranks must match.")
  else Ok (map snd (filter (fun p : Float64.float * nat => Float64.ltb f_0_8 (fst p))
                           (combine similarities ranks))).

Definition USER_NAME : string := "Felix".

(** [l[-n:]] for an integer [n]: the last [n] items when [n] is positive,
    the whole list when [n] is zero, and the list without its first [-n]
    items when [n] is negative. *)
Definition slice_from_minus {A : Type} (n : Z) (l : list A) : list A :=
  if (0 <? n)%Z then skipn (length l - Z.to_nat n) l
  else skipn (Z.to_nat (- n)) l.

(** Lines 206 to 211 of [run_chat_round]: the history kept for the prompt;
    [history_length] is [self.args.get("history_length", 2)]. *)
Definition trim_history (history_length : Z) (chat_history : list string) : list string :=
  match chat_history with
  | [] => []
  | _ => if (history_length <=? Z.of_nat (length chat_history))%Z
         then slice_from_minus history_length chat_history
         else chat_history
  end.

(** The state of a [MemoryChatbot] that a round changes. *)
Record MemoryChatbot : Type := mkMemoryChatbot {
  chat_history : list string;
  memory_manager : Store
}.

Section ChatRound.

Variable fuzz_ratio : string -> string -> Float64.float.
Variable embed_query : string -> list Float64.float.
Variable set_order : list RelationEdge -> list RelationEdge.

(** [history_length] is the argument the chatbot was built with. *)
Variable history_length : Z.

(** One round.  [decompose] and [extract] are the replies of the model to
    the decomposition of this round and to the extraction of this round,
    [response] is the text the model streams, [t_id] and [t_stamp] are
    the readings of the clock during the ingestion.  An exception leaves
    the chatbot in the state it had when it was raised. *)
Definition run_chat_round (bot : MemoryChatbot) (user_input response : string)
           (decompose extract : llm) (t_id t_stamp : string)
  : MemoryChatbot * result string :=
  match retrieve_relevant_memory fuzz_ratio embed_query set_order
          (memory_manager bot) decompose with
  | Raise e => (bot, Raise e)
  | Ok _ =>
      let history := trim_history history_length (chat_history bot) in
      let history :=
        history ++ [(USER_NAME ++ ": " ++ user_input)%string;
                    ("Neko: " ++ response)%string] in
      let '(st, saved) :=
        process_messages_and_save_to_memory fuzz_ratio embed_query t_id t_stamp
          [(USER_NAME ++ ": " ++ user_input)%string; ("Neko: " ++ response)%string]
          (memory_manager bot) extract in
      (mkMemoryChatbot history st,
       match saved with
       | Ok _ => Ok response
       | Raise e => Raise e
       end)
  end.

End ChatRound.

(** ** [visualize/visualize_server.py] *)

(** A node and an edge of the exported graph. *)
Record VisNode : Type := mkVisNode {
  vis_id : string;
  vis_label : string;
  vis_title : string;
  vis_shape : string
}.

Record VisEdge : Type := mkVisEdge {
  vis_edge_id : string;
  vis_from : string;
  vis_to : string;
  vis_edge_label : string;
  vis_edge_title : string
}.

(** A Python [str] is a sequence of characters; a string here is the
    sequence of the bytes of its UTF-8 encoding, in which every character
    is one byte that is not a continuation byte followed by its
    continuation bytes (10xxxxxx). *)
Definition is_continuation (c : ascii) : bool :=
  ((128 <=? nat_of_ascii c) && (nat_of_ascii c <? 192))%nat.

(** [len(s)]: the number of characters. *)
Fixpoint py_len (s : string) : nat :=
  match s with
  | EmptyString => 0
  | String c s' => if is_continuation c then py_len s' else S (py_len s')
  end.

(** [s[:n]]: the first [n] characters. *)
Fixpoint py_take (n : nat) (s : string) : string :=
  match s with
  | EmptyString => EmptyString
  | String c s' =>
      if is_continuation c then String c (py_take n s')
      else match n with
           | 0 => EmptyString
           | S n' => String c (py_take n' s')
           end
  end.

(** [a or b] on two strings. *)
Definition str_or (a b : string) : string :=
  if String.eqb a "" then b else a.

(** The value of [graph_data] in [export_graph_to_json]: its nodes and its
    edges. *)
Definition export_graph (st : Store) : list VisNode * list VisEdge :=
  let keyword_nodes :=
    map (fun row : KeywordNode =>
           mkVisNode (node_id row) (keyword row)
                     ("Content: " ++ content row)%string "ellipse")
        (keywords st) in
  let block_nodes :=
    map (fun row : BlockRow =>
           let l := Nat.min (py_len (row_messages row)) 60 in
           mkVisNode (row_block_id row)
                     (str_or (row_title row) (py_take l (row_messages row)))
                     ("Timestamp: " ++ row_timestamp row ++ newline ++ row_messages row)%string
                     "box")
        (message_blocks st) in
  let edges :=
    map (fun row : RelationEdge =>
           mkVisEdge (relation_id row) (source row) (target row)
                     (relation_type row) (relation_desc row))
        (relations st) in
  (keyword_nodes ++ block_nodes, edges).

(** ** Statements about a store *)

(** The primary keys of the three tables are unique. *)
Definition keys_unique (st : Store) : Prop :=
  NoDup (map (fun k : KeywordNode => node_id k) (keywords st))
  /\ NoDup (map row_block_id (message_blocks st))
  /\ NoDup (map relation_id (relations st)).

(** Does a row of the table have the primary key [x]? *)
Definition has_key {R : Type} (key : R -> string) (table : list R) (x : string) : bool :=
  existsb (fun r => String.eqb (key r) x) table.

(** [l1] is the beginning of [l2]. *)
Definition begins {A : Type} (l1 l2 : list A) : Prop := exists more, l2 = l1 ++ more.

(** ** Concrete collaborators and data for the examples *)

Module Sample.

(** [rapidfuzz.fuzz.ratio] as the library documents it: the normalized
    Indel similarity times 100, where the Indel distance of two strings
    is the sum of their lengths minus twice the length of a longest
    common subsequence. *)
Fixpoint lcs_row (c : ascii) (s2 : list ascii) (prev : list nat) (diag left : nat)
  : list nat :=
  match s2, prev with
  | d :: s2', up :: prev' =>
      let cur := if Ascii.eqb c d then S diag else Nat.max up left in
      cur :: lcs_row c s2' prev' up cur
  | _, _ => []
  end.

Definition lcs_length (s1 s2 : string) : nat :=
  let l2 := list_ascii_of_string s2 in
  last (fold_left (fun row c => lcs_row c l2 row 0 0)
                  (list_ascii_of_string s1) (repeat 0 (length l2)))
       0.

Definition indel_ratio (s1 s2 : string) : Float64.float :=
  let maximum := String.length s1 + String.length s2 in
  let dist := maximum - 2 * lcs_length s1 s2 in
  let norm_dist :=
    if Nat.eqb maximum 0 then Float64.zero
    else Float64.div (Float64.of_Z (Z.of_nat dist)) (Float64.of_Z (Z.of_nat maximum)) in
  Float64.mul (Float64.add Float64.one (SFopp norm_dist)) (Float64.of_Z 100).

Definition f0 : Float64.float := Float64.zero.
Definition f1 : Float64.float := Float64.one.
Definition half : Float64.float := Float64.div (Float64.of_Z 1) (Float64.of_Z 2).

(** An embedding service over two dimensions: the texts that mention an
    opening on one axis, all others on the other one. *)
Definition embed (text : string) : list Float64.float :=
  if contains "open" text then [f1; f0] else [f0; f1].

Definition kw (id : string) (e : list Float64.float) : KeywordNode :=
  new_KeywordNode id id "" (Some e).

(** Two keywords: the first orthogonal to the query [[1; 0]], the second
    equal to it. *)
Definition two_keywords : Store :=
  add_keyword (add_keyword empty_store (kw "a" [f0; f1])) (kw "b" [f1; f0]).

(** One keyword with one description attached. *)
Definition old_relation : RelationEdge :=
  new_RelationEdge "0-msg-old" "account" "msg-old" "describes"
                   "account: opened in May" (Some (embed "account: opened in May")).

Definition account_store : Store :=
  add_message empty_store
    (new_MessageBlock "t0" "msg-old" ["Felix: I opened an account in May"] "" "" None)
    [kw "account" [f0; f1]]
    [old_relation].

(** A few floats with the text Python's [str] gives them, and [float]
    on those texts. *)
Inductive printed : Type := p_zero | p_one | p_half | p_neg | p_small | p_inf.

Definition py_str (x : printed) : string :=
  match x with
  | p_zero => "0.0"
  | p_one => "1.0"
  | p_half => "0.5"
  | p_neg => "-2.25"
  | p_small => "1e-05"
  | p_inf => "inf"
  end.

Definition py_float (s : string) : option printed :=
  find (fun x => String.eqb (py_str x) s)
       [p_zero; p_one; p_half; p_neg; p_small; p_inf].

Definition all_empty : llm := fun _ => Some [].
Definition replies (d : dict) : llm := fun _ => Some d.

(** The store after a second mention of the account was ingested. *)
Definition two_mentions : Store :=
  fst (process_messages_and_save_to_memory indel_ratio embed "T" "T"
         ["Felix: I closed the account in June"; "Neko: noted"] account_store
         (replies [("account", "account: closed in June")])).

Definition three_components : dict :=
  [("account", "when was the account opened");
   ("dog", "is the dog open to cats");
   ("accounts", "what happened in June")].

(** One keyword with two descriptions attached: one with the embedding of
    its text, one whose embedding is the zero vector. *)
Definition closed_relation : RelationEdge :=
  new_RelationEdge "0-msg-june" "account" "msg-june" "describes"
                   "account: closed in June" (Some (embed "account: closed in June")).

Definition junk_relation : RelationEdge :=
  new_RelationEdge "0-msg-junk" "account" "msg-junk" "describes"
                   "junk: zero embedding" (Some [f0; f0]).

Definition junk_store : Store :=
  add_relation
    (add_relation (add_keyword empty_store (kw "account" [f0; f1])) closed_relation)
    junk_relation.

Definition closing_query : dict := [("account", "when was the account closed")].

(** A text of 59 letters, an e with an acute accent (the two bytes C3 A9)
    and two more letters, and a store with one block of that text. *)
Definition e_acute : string :=
  String (ascii_of_nat 195) (String (ascii_of_nat 169) EmptyString).

Definition fifty_nine : string :=
  String.concat "" (repeat "x" 59).

Definition accent_text : string := (fifty_nine ++ e_acute ++ "zz")%string.

Definition accent_label : string := (fifty_nine ++ e_acute)%string.

Definition accent_store : Store :=
  add_message_block empty_store
    (new_MessageBlock "t0" "msg-accent" [accent_text] "" "" None).

(** An empty store after a first mention of the account was ingested, and
    after a second one. *)
Definition first_mention : Store :=
  fst (process_messages_and_save_to_memory indel_ratio embed "T1" "T1"
         ["Felix: I closed the account in June"; "Neko: noted"] empty_store
         (replies [("account", "account: closed in June")])).

Definition second_mention : Store :=
  fst (process_messages_and_save_to_memory indel_ratio embed "T2" "T2"
         ["Felix: I opened it again in July"; "Neko: noted"] first_mention
         (replies [("account", "account: opened again in July")])).

End Sample.


(* ================================================================= *)
(** * Part II: properties *)
(* ================================================================= *)

(** ** Strings: [split] after [join] *)

Section SplitJoin.

Lemma append_assoc_char (cur : string) (c : ascii) (m : string) :
  ((cur ++ String c EmptyString) ++ m = cur ++ String c m)%string.
Proof.
  induction cur as [|a cur IH]; simpl; [reflexivity | now rewrite IH].
Qed.

Lemma append_empty_r (s : string) : (s ++ EmptyString)%string = s.
Proof.
  induction s as [|a s IH]; simpl; [reflexivity | now rewrite IH].
Qed.

Lemma append_assoc3 (a b c : string) : ((a ++ b) ++ c = a ++ (b ++ c))%string.
Proof.
  induction a as [|x a IH]; simpl; [reflexivity | now rewrite IH].
Qed.

Lemma string_length_app (a b : string) :
  String.length (a ++ b)%string = String.length a + String.length b.
Proof.
  induction a as [|x a IH]; simpl; [reflexivity | now rewrite IH].
Qed.

Lemma prefix_self_app (p rest : string) : String.prefix p (p ++ rest)%string = true.
Proof.
  induction p as [|a p IH]; simpl.
  - now destruct rest.
  - destruct (ascii_dec a a) as [_|n]; [exact IH | now elim n].
Qed.

(** Only the first [length p] characters decide [prefix p]. *)
Lemma prefix_app_short (p a b : string) :
  String.length p <= String.length a ->
  String.prefix p (a ++ b)%string = String.prefix p a.
Proof.
  revert a; induction p as [|x p IH]; intros a Hlen.
  - now destruct a, b.
  - destruct a as [|y a]; simpl in Hlen; [lia|].
    simpl. destruct (ascii_dec x y); [apply IH; lia | reflexivity].
Qed.

(** A piece in which no separator starts is read to its end. *)
Lemma split_from_piece (sep m tail cur : string) :
  starts_inside sep m tail = false ->
  split_from sep 0 cur (m ++ tail)%string = split_from sep 0 (cur ++ m)%string tail.
Proof.
  revert cur; induction m as [|c m IH]; intros cur H.
  - now rewrite append_empty_r.
  - cbn [starts_inside] in H. apply orb_false_iff in H as [Hp Hm].
    cbn [append] in *. cbn [split_from].
    rewrite Hp, (IH _ Hm), append_assoc_char. reflexivity.
Qed.

Lemma split_from_skip (sep a rest cur : string) :
  split_from sep (String.length a) cur (a ++ rest)%string = split_from sep 0 cur rest.
Proof.
  induction a as [|c a IH]; simpl.
  - now destruct rest.
  - exact IH.
Qed.

(** A separator closes the piece being read. *)
Lemma split_from_sep (sep rest cur : string) :
  sep <> EmptyString ->
  split_from sep 0 cur (sep ++ rest)%string = cur :: split_from sep 0 EmptyString rest.
Proof.
  intros Hne. destruct sep as [|c sep]; [now elim Hne|].
  pose proof (prefix_self_app (String c sep) rest) as Hp.
  change ((String c sep ++ rest)%string) with (String c (sep ++ rest)%string) in *.
  cbn [split_from]. rewrite Hp. f_equal.
  replace (String.length (String c sep) - 1) with (String.length sep) by (simpl; lia).
  apply split_from_skip.
Qed.

(** What the tail adds beyond the length of the separator is not looked at. *)
Lemma starts_inside_tail (sep m t u : string) :
  String.length sep <= S (String.length t) ->
  starts_inside sep m (t ++ u)%string = starts_inside sep m t.
Proof.
  intros Hlen. induction m as [|c m IH]; [reflexivity|].
  cbn [starts_inside]. rewrite IH. f_equal.
  rewrite <- !append_assoc3. apply prefix_app_short.
  rewrite string_length_app. simpl. lia.
Qed.

Lemma starts_inside_app (sep m t : string) :
  contains sep (m ++ t)%string = false -> starts_inside sep m t = false.
Proof.
  unfold contains. induction m as [|c m IH]; [reflexivity|].
  change ((String c m ++ t)%string) with (String c (m ++ t)%string).
  cbn [starts_inside]. intros H. apply orb_false_iff in H as [Hp Hm].
  change ((String c (m ++ t) ++ "")%string) with (String c ((m ++ t) ++ "")%string) in Hp.
  rewrite append_empty_r in Hp.
  change ((String c m ++ t)%string) with (String c (m ++ t)%string).
  now rewrite Hp, (IH Hm).
Qed.

Lemma split_join (sep : string) (ms : list string) :
  sep <> EmptyString -> separable sep ms -> split sep (join sep ms) = ms.
Proof.
  intros Hne. unfold split, join.
  induction ms as [|m ms IH]; [intros []|].
  destruct ms as [|m2 ms].
  - simpl. intros H.
    rewrite <- (append_empty_r m) at 1.
    rewrite (split_from_piece _ _ _ _ H). reflexivity.
  - intros [Hm Hrest].
    change (String.concat sep (m :: m2 :: ms))
      with (m ++ sep ++ String.concat sep (m2 :: ms))%string.
    rewrite split_from_piece.
    + rewrite split_from_sep by assumption.
      simpl (EmptyString ++ m)%string. f_equal. exact (IH Hrest).
    + rewrite starts_inside_tail; [exact Hm | lia].
Qed.

End SplitJoin.

(** ** The [embeddings] column *)

Section EmbeddingsCodec.

Variable F : Type.
Variable str_of_float : F -> string.
Variable float_of_str : string -> option F.

(** What Python guarantees of [str] and [float] on floats. *)
Hypothesis float_of_str_of_float : forall x, float_of_str (str_of_float x) = Some x.
Hypothesis str_no_comma : forall x, contains "," (str_of_float x) = false.
Hypothesis str_not_empty : forall x, str_of_float x <> "".

Lemma floats_of_map_str (l : list F) :
  floats_of F float_of_str (map str_of_float l) = Some l.
Proof.
  induction l as [|x l IH]; simpl; [reflexivity|].
  now rewrite float_of_str_of_float, IH.
Qed.

Lemma separable_comma (x : F) (l : list F) :
  separable "," (map str_of_float (x :: l)).
Proof.
  revert x; induction l as [|y l IH]; intros x.
  - simpl. apply str_no_comma.
  - change (starts_inside "," (str_of_float x) "," = false
            /\ separable "," (map str_of_float (y :: l))).
    split; [|apply IH].
    change ","%string with (EmptyString ++ ",")%string at 2.
    rewrite starts_inside_tail by (simpl; lia).
    apply str_no_comma.
Qed.

Lemma join_not_empty (x : F) (l : list F) :
  join "," (map str_of_float (x :: l)) <> "".
Proof.
  unfold join. destruct l as [|y l]; simpl.
  - apply str_not_empty.
  - pose proof (str_not_empty x). destruct (str_of_float x); [easy | discriminate].
Qed.

(** C8: the text of a sequence of floats decodes to that sequence, for
    every length; the empty sequence is written as the empty string and
    the empty string is read as the empty sequence. *)
Theorem embeddings_round_trip (l : list F) :
  _deserialize_embeddings F float_of_str
    (_serialize_embeddings F str_of_float (Some l)) = Some l
  /\ _serialize_embeddings F str_of_float (Some []) = ""
  /\ _deserialize_embeddings F float_of_str "" = Some [].
Proof.
  split; [|split; reflexivity].
  destruct l as [|x l]; [reflexivity|].
  unfold _serialize_embeddings, _deserialize_embeddings.
  destruct (String.eqb_spec (join "," (map str_of_float (x :: l))) "") as [E|_].
  - now apply join_not_empty in E.
  - rewrite split_join; [apply floats_of_map_str | discriminate | apply separable_comma].
Qed.

End EmbeddingsCodec.

Lemma embeddings_round_trip_witness :
  _deserialize_embeddings Sample.printed Sample.py_float
    (_serialize_embeddings Sample.printed Sample.py_str
       (Some [Sample.p_half; Sample.p_neg; Sample.p_small]))
  = Some [Sample.p_half; Sample.p_neg; Sample.p_small].
Proof.
  refine (proj1 (embeddings_round_trip Sample.printed Sample.py_str Sample.py_float
                   _ _ _ [Sample.p_half; Sample.p_neg; Sample.p_small])).
  - intros []; reflexivity.
  - intros []; reflexivity.
  - intros []; discriminate.
Defined.

(** ** Message blocks *)

Lemma separator_is_head_newline :
  MESSAGE_SEPERATOR = (SEPERATOR_HEAD ++ newline)%string.
Proof. reflexivity. Qed.

(** A separator read across the end of [a] splits into a prefix that is
    [a] and a rest that starts [b]. *)
Lemma prefix_app_left (p a b : string) :
  String.prefix p (a ++ b)%string = true -> String.length a <= String.length p ->
  String.prefix a p = true.
Proof.
  revert p; induction a as [|y a IH]; intros p Hp Hlen; [now destruct p|].
  destruct p as [|x p]; simpl in Hlen; [lia|].
  simpl in Hp |- *. destruct (ascii_dec x y) as [->|]; [|discriminate].
  destruct (ascii_dec y y) as [_|n]; [|now elim n]. apply IH; [exact Hp | lia].
Qed.

Lemma prefix_app_right (p a b : string) :
  String.prefix p (a ++ b)%string = true -> String.length a <= String.length p ->
  String.prefix (string_drop (String.length a) p) b = true.
Proof.
  revert p; induction a as [|y a IH]; intros p Hp Hlen; [now destruct p|].
  destruct p as [|x p]; simpl in Hlen; [lia|].
  simpl in Hp |- *. destruct (ascii_dec x y); [|discriminate]. apply IH; [exact Hp | lia].
Qed.

(** The separator overlaps itself on its newline only: no proper end of
    it of two characters or more starts it again. *)
Lemma separator_borders (k : nat) :
  1 <= k <= 19 ->
  String.prefix (string_drop k MESSAGE_SEPERATOR) SEPERATOR_HEAD = false.
Proof.
  intros Hk.
  assert (H : forallb (fun k => negb (String.prefix (string_drop k MESSAGE_SEPERATOR)
                                                   SEPERATOR_HEAD))
                      (seq 1 19) = true) by (vm_compute; reflexivity).
  rewrite forallb_forall in H. apply negb_true_iff, H, in_seq. lia.
Qed.

(** A message that neither contains the separator nor ends with its first
    twenty characters contains no separator when these characters are put
    after it. *)
Lemma no_separator_across (m : string) :
  contains MESSAGE_SEPERATOR m = false ->
  ends_with SEPERATOR_HEAD m = false ->
  contains MESSAGE_SEPERATOR (m ++ SEPERATOR_HEAD)%string = false.
Proof.
  unfold contains. induction m as [|c m IH]; [reflexivity|].
  intros Hc He.
  cbn [starts_inside] in Hc. apply orb_false_iff in Hc as [Hp Hc].
  cbn [ends_with] in He. apply orb_false_iff in He as [Heq He].
  rewrite append_empty_r in Hp.
  change ((String c m ++ SEPERATOR_HEAD)%string)
    with (String c (m ++ SEPERATOR_HEAD)%string).
  cbn [starts_inside]. rewrite (IH Hc He), orb_false_r.
  change ((String c (m ++ SEPERATOR_HEAD) ++ "")%string)
    with (((String c m ++ SEPERATOR_HEAD) ++ "")%string).
  rewrite append_empty_r.
  set (a := String c m) in *.
  destruct (Nat.le_gt_cases (String.length MESSAGE_SEPERATOR) (String.length a)) as [Hl|Hs].
  - now rewrite prefix_app_short.
  - change (String.length MESSAGE_SEPERATOR) with 21 in Hs.
    destruct (String.prefix MESSAGE_SEPERATOR (a ++ SEPERATOR_HEAD)%string) eqn:E;
      [exfalso|reflexivity].
    assert (Hlen : String.length a <= String.length MESSAGE_SEPERATOR)
      by (change (String.length MESSAGE_SEPERATOR) with 21; lia).
    pose proof (prefix_app_left _ _ _ E Hlen) as Hleft.
    pose proof (prefix_app_right _ _ _ E Hlen) as Hright.
    assert (Hpos : 1 <= String.length a) by (unfold a; simpl; lia).
    destruct (Nat.eq_dec (String.length a) 20) as [H20|Hne].
    + apply String.prefix_correct in Hleft. rewrite H20 in Hleft.
      change (substring 0 20 MESSAGE_SEPERATOR) with SEPERATOR_HEAD in Hleft.
      rewrite <- Hleft, String.eqb_refl in Heq. discriminate.
    + rewrite separator_borders in Hright by lia. discriminate.
Qed.

Lemma separable_messages (ms : list string) :
  ms <> [] ->
  Forall (fun m => contains MESSAGE_SEPERATOR m = false) ms ->
  Forall (fun m => ends_with SEPERATOR_HEAD m = false) (removelast ms) ->
  separable MESSAGE_SEPERATOR ms.
Proof.
  induction ms as [|m ms IH]; [now intros H|].
  intros _ Hall Hinit. destruct ms as [|m2 ms].
  - now inversion Hall.
  - change (removelast (m :: m2 :: ms)) with (m :: removelast (m2 :: ms)) in Hinit.
    inversion Hinit as [|? ? Hm Hrest]; subst.
    inversion Hall as [|? ? Hcm Hcrest]; subst.
    change (starts_inside MESSAGE_SEPERATOR m MESSAGE_SEPERATOR = false
            /\ separable MESSAGE_SEPERATOR (m2 :: ms)).
    split.
    + rewrite separator_is_head_newline at 2.
      rewrite starts_inside_tail by (vm_compute; lia).
      now apply starts_inside_app, no_separator_across.
    + apply IH; [discriminate | assumption | assumption].
Qed.

Lemma select_fresh {R : Type} (key : R -> string) (row : R) (table : list R) :
  existsb (fun r => String.eqb (key r) (key row)) table = false ->
  select (fun r => String.eqb (key r) (key row)) (insert_or_ignore key row table) = [row].
Proof.
  intros H. unfold insert_or_ignore, select. rewrite H, filter_app. simpl.
  rewrite String.eqb_refl.
  replace (filter (fun r => String.eqb (key r) (key row)) table) with (@nil R); [reflexivity|].
  induction table as [|r t IH]; [reflexivity|].
  simpl in H |- *. apply orb_false_iff in H as [Hr Ht].
  rewrite Hr. now apply IH.
Qed.

(** C9, as stated, fails on a block without messages and on a message
    that ends with the separator less its final newline: no message
    contains the separator, and splitting the content gives another list. *)
Lemma content_split_counterexample :
  (Forall (fun m => contains MESSAGE_SEPERATOR m = false) []
   /\ split MESSAGE_SEPERATOR (content (new_MessageBlock "t" "msg-1" [] "" "" None))
      <> [])
  /\ (Forall (fun m => contains MESSAGE_SEPERATOR m = false) [SEPERATOR_HEAD; "x"]
      /\ split MESSAGE_SEPERATOR
           (content (new_MessageBlock "t" "msg-1" [SEPERATOR_HEAD; "x"] "" "" None))
         <> [SEPERATOR_HEAD; "x"]).
Proof.
  split; split.
  - constructor.
  - vm_compute. discriminate.
  - repeat constructor.
  - vm_compute. discriminate.
Qed.

(** C9, amended: for a block with at least one message, where no message
    contains the separator and no message but the last ends with the
    separator less its final newline, the content is the messages joined
    with the separator and splitting the content gives the messages back;
    so does reading the block back from a store it was inserted into under
    an id that was free. *)
Theorem message_block_content_round_trip
        (now now' block_id ts ttl : string) (emb : option (list Float64.float))
        (ms : list string) (st : Store) :
  ms <> [] ->
  Forall (fun m => contains MESSAGE_SEPERATOR m = false) ms ->
  Forall (fun m => ends_with SEPERATOR_HEAD m = false) (removelast ms) ->
  let b := new_MessageBlock now block_id ms ts ttl emb in
  content b = join MESSAGE_SEPERATOR ms
  /\ split MESSAGE_SEPERATOR (content b) = ms
  /\ (existsb (fun r => String.eqb (row_block_id r) block_id) (message_blocks st) = false ->
      exists b', get_message_block now' (add_message_block st b) block_id = Ok b'
                 /\ messages b' = ms).
Proof.
  intros Hne Hall Hinit b.
  assert (Hsplit : split MESSAGE_SEPERATOR (join MESSAGE_SEPERATOR ms) = ms).
  { apply split_join; [discriminate | now apply separable_messages]. }
  split; [reflexivity|]. split; [exact Hsplit|].
  intros Hfresh. unfold get_message_block, add_message_block.
  cbn [message_blocks].
  set (row := mkBlockRow (node_id b) (content b) (title b) (timestamp b) (embeddings b)).
  pose proof (select_fresh row_block_id row (message_blocks st) Hfresh) as Hsel.
  change (row_block_id row) with block_id in Hsel.
  rewrite Hsel.
  eexists; split; [reflexivity|]. exact Hsplit.
Qed.

Lemma message_block_content_round_trip_witness :
  split MESSAGE_SEPERATOR
        (content (new_MessageBlock "t" "msg-1" ["Felix: hi"; "Neko: hello"] "" "" None))
  = ["Felix: hi"; "Neko: hello"]
  /\ exists b', get_message_block "t"
                  (add_message_block empty_store
                     (new_MessageBlock "t" "msg-1" ["Felix: hi"; "Neko: hello"] "" "" None))
                  "msg-1" = Ok b'
                /\ messages b' = ["Felix: hi"; "Neko: hello"].
Proof.
  assert (H := message_block_content_round_trip
                 "t" "t" "msg-1" "" "" None ["Felix: hi"; "Neko: hello"] empty_store).
  cbv zeta in H. split.
  - refine (proj1 (proj2 (H _ _ _))); [discriminate | repeat constructor | repeat constructor].
  - refine (proj2 (proj2 (H _ _ _)) _);
      [discriminate | repeat constructor | repeat constructor | reflexivity].
Defined.

(** ** The three tables *)

Lemma insert_or_ignore_present {R : Type} (key : R -> string) (row : R) (table : list R) :
  (exists r0, In r0 table /\ key r0 = key row) ->
  insert_or_ignore key row table = table.
Proof.
  intros (r0 & Hin & Hkey). unfold insert_or_ignore.
  replace (existsb (fun r => String.eqb (key r) (key row)) table) with true; [reflexivity|].
  symmetry. apply existsb_exists. exists r0. split; [exact Hin|].
  rewrite Hkey. apply String.eqb_refl.
Qed.

Lemma insert_or_ignore_twice {R : Type} (key : R -> string) (row : R) (table : list R) :
  insert_or_ignore key row (insert_or_ignore key row table)
  = insert_or_ignore key row table.
Proof.
  apply insert_or_ignore_present. unfold insert_or_ignore.
  destruct (existsb (fun r => String.eqb (key r) (key row)) table) eqn:E.
  - apply existsb_exists in E as (r0 & Hin & Heq).
    exists r0. split; [exact Hin | now apply String.eqb_eq].
  - exists row. split; [apply in_or_app; right; now left | reflexivity].
Qed.

(** C7: in each of the three tables, inserting a record whose id is
    already there changes nothing, so the record first inserted under an
    id keeps all its fields; and inserting a record twice gives the store
    that inserting it once gives. *)
Theorem put_is_insert_if_absent
        (st : Store) (k : KeywordNode) (b : MessageBlock) (r : RelationEdge) :
  ((exists k0 : KeywordNode, In k0 (keywords st) /\ node_id k0 = node_id k) ->
     add_keyword st k = st)
  /\ ((exists b0, In b0 (message_blocks st) /\ row_block_id b0 = node_id b) ->
        add_message_block st b = st)
  /\ ((exists r0, In r0 (relations st) /\ relation_id r0 = relation_id r) ->
        add_relation st r = st)
  /\ add_keyword (add_keyword st k) k = add_keyword st k
  /\ add_message_block (add_message_block st b) b = add_message_block st b
  /\ add_relation (add_relation st r) r = add_relation st r.
Proof.
  destruct st as [ks bs rs].
  unfold add_keyword, add_message_block, add_relation; cbn [keywords message_blocks relations].
  repeat split.
  - intros H. f_equal. now apply (insert_or_ignore_present (fun x : KeywordNode => node_id x)).
  - intros H. f_equal. now apply insert_or_ignore_present.
  - intros H. f_equal. now apply insert_or_ignore_present.
  - f_equal. apply (insert_or_ignore_twice (fun x : KeywordNode => node_id x)).
  - f_equal. apply insert_or_ignore_twice.
  - f_equal. apply insert_or_ignore_twice.
Qed.

(** A second keyword under the id ["account"], with another embedding,
    leaves the stored one as it is. *)
Lemma put_is_insert_if_absent_witness :
  add_keyword Sample.account_store (Sample.kw "account" [Sample.f1; Sample.f0])
  = Sample.account_store.
Proof.
  refine (proj1 (put_is_insert_if_absent Sample.account_store
                   (Sample.kw "account" [Sample.f1; Sample.f0])
                   (new_MessageBlock "t" "msg-old" [] "" "" None)
                   Sample.old_relation) _).
  exists (Sample.kw "account" [Sample.f0; Sample.f1]). split; [now left | reflexivity].
Defined.

(** First writer wins, read through [get_keyword]: after two keywords are
    inserted under one id that was free, the id gives the first one. *)
Lemma first_keyword_is_kept (st : Store) (k1 k2 : KeywordNode) :
  existsb (fun r : KeywordNode => String.eqb (node_id r) (node_id k1)) (keywords st) = false ->
  node_id k2 = node_id k1 ->
  get_keyword (add_keyword (add_keyword st k1) k2) (node_id k1) = Ok k1.
Proof.
  intros Hfresh Hid.
  assert (Hnoop : add_keyword (add_keyword st k1) k2 = add_keyword st k1).
  { unfold add_keyword at 1.
    rewrite (insert_or_ignore_present (fun x : KeywordNode => node_id x)).
    - now destruct (add_keyword st k1).
    - exists k1. split; [|now symmetry].
      unfold add_keyword, insert_or_ignore; cbn [keywords]. rewrite Hfresh.
      apply in_or_app; right; now left. }
  rewrite Hnoop. unfold get_keyword, add_keyword. cbn [keywords].
  now rewrite (select_fresh (fun r : KeywordNode => node_id r) k1 (keywords st) Hfresh).
Qed.

(** ** Semantic search *)

Lemma mapM_raise {A B : Type} (f : A -> result B) (l : list A) (e : exn) :
  mapM f l = Raise e -> exists x, In x l /\ f x = Raise e.
Proof.
  induction l as [|a l IH]; simpl; [discriminate|].
  destruct (f a) as [b|e'] eqn:Ea; simpl.
  - destruct (mapM f l) as [bs|e'']; simpl; [discriminate|].
    intros [= ->]. destruct (IH eq_refl) as (x & Hin & Hx).
    exists x. split; [now right | exact Hx].
  - intros [= ->]. exists a. split; [now left | exact Ea].
Qed.

(** ** Rows in the order of their primary key *)

Lemma insert_by_key_perm {R : Type} (key : R -> string) (row : R) (rows : list R) :
  Permutation (insert_by_key key row rows) (row :: rows).
Proof.
  induction rows as [|x rows IH]; simpl; [reflexivity|].
  destruct (String.leb (key row) (key x)); [reflexivity|].
  rewrite IH. apply perm_swap.
Qed.

Lemma order_by_key_perm {R : Type} (key : R -> string) (rows : list R) :
  Permutation (order_by_key key rows) rows.
Proof.
  induction rows as [|x rows IH]; simpl; [reflexivity|].
  rewrite insert_by_key_perm. now constructor.
Qed.

Lemma ascii_compare_lt_trans (a b c : ascii) :
  Ascii.compare a b = Lt -> Ascii.compare b c = Lt -> Ascii.compare a c = Lt.
Proof. unfold Ascii.compare. rewrite !N.compare_lt_iff. apply N.lt_trans. Qed.

Lemma string_compare_lt_trans (s1 s2 s3 : string) :
  String.compare s1 s2 = Lt -> String.compare s2 s3 = Lt -> String.compare s1 s3 = Lt.
Proof.
  revert s2 s3; induction s1 as [|a s1 IH]; intros [|b s2] [|c s3]; simpl;
    try easy.
  destruct (Ascii.compare a b) eqn:Eab; try easy;
    destruct (Ascii.compare b c) eqn:Ebc; try easy; intros H12 H23.
  - apply Ascii.compare_eq_iff in Eab. subst a. rewrite Ebc. now apply (IH s2).
  - apply Ascii.compare_eq_iff in Eab. subst a. now rewrite Ebc.
  - apply Ascii.compare_eq_iff in Ebc. subst c. now rewrite Eab.
  - now rewrite (ascii_compare_lt_trans a b c).
Qed.

Lemma string_leb_trans (s1 s2 s3 : string) :
  String.leb s1 s2 = true -> String.leb s2 s3 = true -> String.leb s1 s3 = true.
Proof.
  unfold String.leb.
  destruct (String.compare s1 s2) eqn:E12; try discriminate;
    destruct (String.compare s2 s3) eqn:E23; try discriminate; intros _ _.
  - apply String.compare_eq_iff in E12. subst s1. now rewrite E23.
  - apply String.compare_eq_iff in E12. subst s1. now rewrite E23.
  - apply String.compare_eq_iff in E23. subst s3. now rewrite E12.
  - now rewrite (string_compare_lt_trans s1 s2 s3).
Qed.

Lemma insert_by_key_sorted {R : Type} (key : R -> string) (row : R) (rows : list R) :
  StronglySorted (fun a b => String.leb (key a) (key b) = true) rows ->
  StronglySorted (fun a b => String.leb (key a) (key b) = true)
                 (insert_by_key key row rows).
Proof.
  induction 1 as [|x rows Hs IH Hx]; simpl.
  - constructor; constructor.
  - destruct (String.leb (key row) (key x)) eqn:E.
    + constructor; [now constructor|]. constructor; [exact E|].
      revert Hx. apply Forall_impl. intros y Hy.
      now apply (string_leb_trans _ (key x)).
    + constructor; [exact IH|].
      rewrite (insert_by_key_perm key row rows). constructor; [|exact Hx].
      destruct (String.leb_total (key row) (key x)) as [H|H]; congruence.
Qed.

(** The rows of a [SELECT ... IN] are the rows of the table with one of
    the ids, each as often as the table has it, by ascending key. *)
Lemma order_by_key_sorted {R : Type} (key : R -> string) (rows : list R) :
  StronglySorted (fun a b => String.leb (key a) (key b) = true)
                 (order_by_key key rows).
Proof.
  induction rows as [|x rows IH]; simpl; [constructor|].
  now apply insert_by_key_sorted.
Qed.

Lemma select_in_perm {R : Type} (key : R -> string) (ids : list string)
      (table : list R) :
  Permutation (select_in key ids table)
              (select (fun row => existsb (String.eqb (key row)) ids) table).
Proof. apply order_by_key_perm. Qed.

Lemma select_in_In {R : Type} (key : R -> string) (ids : list string)
      (table : list R) (row : R) :
  In row (select_in key ids table)
  <-> In row table /\ existsb (String.eqb (key row)) ids = true.
Proof.
  rewrite <- (filter_In (fun row => existsb (String.eqb (key row)) ids)).
  split; apply Permutation_in; [|symmetry]; apply select_in_perm.
Qed.

Lemma getitem_raise {A : Type} (l : list A) (i : nat) (e : exn) :
  getitem l i = Raise e -> e = IndexError.
Proof.
  unfold getitem. destruct (nth_error l i); [discriminate | now intros [= <-]].
Qed.

(** The only exceptions of a search with a non-empty query are numpy's and
    an index out of range, never a ValueError of the function itself. *)
Lemma search_by_embedding_raise (st : Store) (q : list Float64.float)
      (threshold : Float64.float) (e : exn) :
  q <> [] ->
  search_keywords_by_embedding st q threshold = Raise e ->
  e = NumpyShapeError \/ e = IndexError.
Proof.
  intros Hq. unfold search_keywords_by_embedding.
  destruct q as [|x q]; [now elim Hq|]. cbn [length Nat.eqb].
  destruct (keywords st) as [|k ks]; [discriminate|].
  unfold Utils.sort_items_by_relevance.
  destruct (Utils.shapes_ok _ _); cbn [bind]; [|intros [= <-]; now left].
  match goal with |- context [mapM ?f ?l] => destruct (mapM f l) as [ids|e'] eqn:Em end;
    cbn [bind]; [discriminate|].
  intros [= ->]. right.
  apply mapM_raise in Em as (p & _ & Hp).
  destruct (getitem _ (fst p)) as [r|e1] eqn:E1; cbn [bind] in Hp.
  - destruct (getitem (k :: ks) r) as [row|e2] eqn:E2; cbn [bind] in Hp; [discriminate|].
    injection Hp as <-. now apply getitem_raise in E2.
  - injection Hp as <-. now apply getitem_raise in E1.
Qed.

(** C10: the search raises its ValueError ("Empty Input embeddings")
    exactly when the query embedding is empty, and a non-empty query
    against a store without keywords gives the empty list. *)
Theorem search_by_embedding_validation
        (st : Store) (q : list Float64.float) (threshold : Float64.float) :
  (search_keywords_by_embedding st q threshold
   = Raise (ValueError "Empty Input embeddings") <-> q = [])
  /\ (q <> [] -> keywords st = [] ->
      search_keywords_by_embedding st q threshold = Ok []).
Proof.
  split; [split|].
  - intros H. destruct q as [|x q]; [reflexivity|].
    apply search_by_embedding_raise in H as [H|H]; discriminate.
  - intros ->. reflexivity.
  - intros Hq Hk. unfold search_keywords_by_embedding.
    destruct q as [|x q]; [now elim Hq|]. cbn [length Nat.eqb]. now rewrite Hk.
Qed.

Lemma search_by_embedding_validation_witness :
  search_keywords_by_embedding empty_store [Sample.f1; Sample.f0] Sample.half = Ok []
  /\ search_keywords_by_embedding Sample.two_keywords [] Sample.half
     = Raise (ValueError "Empty Input embeddings").
Proof.
  split.
  - refine (proj2 (search_by_embedding_validation empty_store
                     [Sample.f1; Sample.f0] Sample.half) _ _);
      [discriminate | reflexivity].
  - refine (proj2 (proj1 (search_by_embedding_validation Sample.two_keywords
                            [] Sample.half)) _).
    reflexivity.
Defined.

(** C1 at a store of two keywords, ["a"] orthogonal to the query and ["b"]
    equal to it, with the default threshold 0.5: the similarities are
    [[0; 1]] in row order and the ranks [[1; 0]]; the comprehension tests
    [similarities[i]] and takes [rows[ranks[i]]], so ["a"], of similarity
    0, is returned and ["b"], of similarity 1, is not. *)
Theorem search_by_embedding_pairs_rank_with_wrong_similarity :
  Utils.sort_items_by_relevance [Sample.f1; Sample.f0]
      (map (fun k : KeywordNode => embeddings k) (keywords Sample.two_keywords))
    = Ok ([Float64.zero; Float64.one], [1; 0])
  /\ Float64.geb Float64.zero Sample.half = false
  /\ Float64.geb Float64.one Sample.half = true
  /\ Utils.cosine_similarity [Sample.f1; Sample.f0] [Sample.f0; Sample.f1]
     = Ok Float64.zero
  /\ Utils.cosine_similarity [Sample.f1; Sample.f0] [Sample.f1; Sample.f0]
     = Ok Float64.one
  /\ search_keywords_by_embedding Sample.two_keywords [Sample.f1; Sample.f0] Sample.half
     = Ok [Sample.kw "a" [Sample.f0; Sample.f1]].
Proof. repeat split; vm_compute; reflexivity. Qed.

(** C6 at an item whose norm is zero: the query is guarded, the rows are
    not; the row is divided by its zero norm, every entry becomes a NaN
    instead of staying what it was, its similarity is a NaN and the row is
    ranked first. *)
Theorem zero_norm_item_is_divided_by_zero :
  Utils.norm [Sample.f0; Sample.f0] = Float64.zero
  /\ Utils.normalize_query [Sample.f0; Sample.f0] = [Sample.f0; Sample.f0]
  /\ Utils.normalize_items [[Sample.f0; Sample.f0]] = [[Float64.nan; Float64.nan]]
  /\ Utils.sort_items_by_relevance [Sample.f1; Sample.f0]
       [[Sample.f0; Sample.f0]; [Sample.f1; Sample.f0]]
     = Ok ([Float64.nan; Float64.one], [0; 1]).
Proof. repeat split; vm_compute; reflexivity. Qed.

(** ** The retry around the model *)

Lemma retry_loop_calls (model : llm) (calls fuel : nat) :
  calls <= snd (retry_loop model calls fuel) <= calls + fuel.
Proof.
  revert calls; induction fuel as [|fuel IH]; intros calls; simpl; [lia|].
  destruct (truthy (model calls)); simpl; [lia|].
  specialize (IH (S calls)). lia.
Qed.

(** The model is called at most [max_retry] times. *)
Lemma generate_summary_dict_bound (model : llm) (max_retry : nat) :
  snd (generate_summary_dict model max_retry) <= max_retry.
Proof.
  unfold generate_summary_dict. pose proof (retry_loop_calls model 0 max_retry). lia.
Qed.

(** Every reply before the last one read was falsy: the loop goes on only
    after a reply that is [None] or the empty mapping. *)
Lemma retry_loop_earlier_replies (model : llm) (calls fuel i : nat) :
  calls <= i -> S i < snd (retry_loop model calls fuel) -> truthy (model i) = false.
Proof.
  revert calls; induction fuel as [|fuel IH]; intros calls Hi Hlt; simpl in Hlt; [lia|].
  destruct (truthy (model calls)) eqn:E; simpl in Hlt; [lia|].
  destruct (Nat.eq_dec i calls) as [->|Hne]; [exact E|].
  apply (IH (S calls)); [lia | exact Hlt].
Qed.

(** When no reply parses, three calls are made and nothing comes back. *)
Lemma generate_summary_dict_never_parses (model : llm) :
  (forall n, model n = None) -> generate_summary_dict model 3 = (None, 3).
Proof.
  intros H. unfold generate_summary_dict. simpl. now rewrite !H.
Qed.

Section IngestionFailure.

Variable fuzz_ratio : string -> string -> Float64.float.
Variable embed_query : string -> list Float64.float.

(** Without a mapping the ingestion raises and the store is the one it
    started from. *)
Lemma ingestion_without_mapping (t_id t_stamp : string) (msgs : list string)
      (st : Store) (model : llm) :
  fst (generate_summary_dict model 3) = None ->
  process_messages_and_save_to_memory fuzz_ratio embed_query t_id t_stamp msgs st model
  = (st, Raise AttributeError).
Proof.
  intros H. unfold process_messages_and_save_to_memory. now rewrite H.
Qed.

(** When none of the three replies parses, the ingestion raises and the
    store is the one it started from. *)
Lemma ingestion_fails_when_no_reply_parses (t_id t_stamp : string) (msgs : list string)
      (st : Store) (model : llm) :
  (forall n, model n = None) ->
  process_messages_and_save_to_memory fuzz_ratio embed_query t_id t_stamp msgs st model
  = (st, Raise AttributeError).
Proof.
  intros H. apply ingestion_without_mapping.
  now rewrite (generate_summary_dict_never_parses model H).
Qed.

End IngestionFailure.

(** C5 at a model whose every reply is the empty JSON object: each reply
    parses, to the empty mapping, yet it is taken for a failure; the call
    is made three times, nothing comes back and the ingestion raises,
    leaving the store as it was. *)
Theorem empty_mapping_is_retried_as_failure :
  (forall n, Sample.all_empty n = Some [])
  /\ generate_summary_dict Sample.all_empty 3 = (None, 3)
  /\ process_messages_and_save_to_memory Sample.indel_ratio Sample.embed
       "T" "T" ["Felix: hi"; "Neko: hello"] Sample.account_store Sample.all_empty
     = (Sample.account_store, Raise AttributeError).
Proof. repeat split. Qed.

(** ** Ingestion *)

(** C3 at a batch of two pairs, the second on a keyword the store already
    has: the ingestion succeeds, the block and the keyword ["dog"] are
    stored, but the list of new relations was replaced by the stored
    relations of ["account"] when the second pair was resolved, so no
    relation carries the description of the first pair. *)
Theorem relation_of_earlier_pair_is_lost :
  let out :=
    process_messages_and_save_to_memory Sample.indel_ratio Sample.embed
      "T" "T" ["Felix: hi"; "Neko: hello"] Sample.account_store
      (Sample.replies [("dog", "dog: barks"); ("account", "account: closed in June")]) in
  snd out = Ok tt
  /\ map row_block_id (message_blocks (fst out)) = ["msg-old"; "msg-T"]
  /\ map (fun k : KeywordNode => node_id k) (keywords (fst out)) = ["account"; "dog"]
  /\ map relation_desc (relations (fst out))
     = ["account: opened in May"; "account: closed in June"]
  /\ existsb (fun r => String.eqb (relation_desc r) "dog: barks") (relations (fst out))
     = false.
Proof. repeat split; vm_compute; reflexivity. Qed.

(** The source of a new relation is the extracted text, also when the
    keyword was resolved to a stored keyword with another id: ["accounts"]
    is resolved to ["account"], and the relation points from ["accounts"],
    which is no keyword of the store. *)
Lemma relation_source_is_extracted_text :
  let out :=
    process_messages_and_save_to_memory Sample.indel_ratio Sample.embed
      "T" "T" ["Felix: hi"; "Neko: hello"] Sample.account_store
      (Sample.replies [("accounts", "accounts: closed in June")]) in
  map (fun k : KeywordNode => node_id k)
      (search_keywords Sample.indel_ratio Sample.account_store "accounts" 70)
    = ["account"]
  /\ map (fun k : KeywordNode => node_id k) (keywords (fst out)) = ["account"]
  /\ map (fun r => (source r, relation_desc r)) (relations (fst out))
     = [("account", "account: opened in May"); ("accounts", "accounts: closed in June")].
Proof. repeat split; vm_compute; reflexivity. Qed.

Section Resolver.

Variable fuzz_ratio : string -> string -> Float64.float.
Variable embed_query : string -> list Float64.float.

Lemma longer_than_suffix (a v : string) : (a ++ newline ++ v)%string <> v.
Proof.
  intros H. apply (f_equal String.length) in H.
  rewrite !string_length_app in H. simpl in H. lia.
Qed.

(** One keyword is appended for every pair. *)
Lemma ingest_step_keywords (st : Store) (block_id : string) (s : ingest_state)
      (kv : string * string) :
  exists kw, ing_keywords (ingest_step fuzz_ratio embed_query st block_id s kv)
             = ing_keywords s ++ [kw].
Proof.
  destruct kv as [k v]. unfold ingest_step.
  destruct (search_keywords fuzz_ratio st k 70); eexists; reflexivity.
Qed.

Lemma ingest_loop_length (st : Store) (block_id : string) (items : dict)
      (s : ingest_state) :
  length (ing_keywords (fold_left (ingest_step fuzz_ratio embed_query st block_id) items s))
  = length (ing_keywords s) + length items.
Proof.
  revert s; induction items as [|kv items IH]; intros s; simpl; [lia|].
  rewrite IH. destruct (ingest_step_keywords st block_id s kv) as (kw & ->).
  rewrite length_app. simpl. lia.
Qed.

(** For a pair whose text matches stored keywords, the keyword the loop
    builds for it has the id of the first match, and its embedding is the
    embedding of the descriptions of the relations stored at that id,
    joined by newlines, followed by a newline and the new description: a
    text that is never the new description alone.  The keyword is then
    handed to [add_keyword]. *)
Lemma ingest_step_refreshes_matched_keyword
        (st : Store) (block_id : string) (items : dict) (i : nat)
        (k v : string) (m : KeywordNode) (ms : list KeywordNode) :
  nth_error items i = Some (k, v) ->
  search_keywords fuzz_ratio st k 70 = m :: ms ->
  let context :=
    (join newline (map relation_desc (get_relation_by_node st (node_id m)))
     ++ newline ++ v)%string in
  nth_error
    (ing_keywords (fold_left (ingest_step fuzz_ratio embed_query st block_id)
                             items (mkIngest [] [] 0)))
    i
  = Some (new_KeywordNode (node_id m) (node_id m) "" (Some (embed_query context)))
  /\ context <> v.
Proof.
  intros Hi Hm context. split; [|apply longer_than_suffix].
  revert i Hi. induction items as [|kv items IH] using rev_ind; intros i Hi.
  - now destruct i.
  - rewrite fold_left_app. cbn [fold_left].
    set (s := fold_left _ items _) in *.
    assert (Hlen : length (ing_keywords s) = length items).
    { subst s. rewrite ingest_loop_length. reflexivity. }
    destruct (Nat.lt_ge_cases i (length items)) as [Hlt|Hge].
    + rewrite nth_error_app1 in Hi by exact Hlt.
      destruct (ingest_step_keywords st block_id s kv) as (kw & ->).
      rewrite nth_error_app1 by lia. now apply IH.
    + rewrite nth_error_app2 in Hi by exact Hge.
      destruct (i - length items) as [|j] eqn:Ej; [|now destruct j].
      injection Hi as ->.
      assert (i = length (ing_keywords s)) as -> by lia.
      unfold ingest_step. rewrite Hm. cbn [ing_keywords].
      rewrite nth_error_app2 by lia. rewrite Nat.sub_diag. reflexivity.
Qed.

End Resolver.

(** The refreshed keyword goes through [add_keyword], which leaves the
    stored row alone: after the second mention was ingested, the keyword
    read back still has the embedding it was first stored with. *)
Lemma refreshed_keyword_is_not_stored :
  get_keyword Sample.two_mentions "account"
  = Ok (Sample.kw "account" [Sample.f0; Sample.f1])
  /\ Sample.embed ("account: opened in May" ++ newline ++ "account: closed in June")
     = [Sample.f1; Sample.f0].
Proof. split; vm_compute; reflexivity. Qed.

(** C4 at a store that learnt the keyword ["account"] from a first
    mention: when a second mention is ingested the resolver finds the
    keyword, keeps its id and computes the embedding of the stored
    description followed by the new one, [[1; 0]]; that keyword is handed
    to [add_keyword], whose INSERT OR IGNORE leaves the stored row alone.
    The ingestion succeeds, and the keyword read back has the embedding
    [[0; 1]] of its first description: the embedding of the keyword was
    not updated. *)
Theorem refreshed_embedding_is_dropped_by_add_keyword :
  let refreshed :=
    Sample.embed ("account: closed in June" ++ newline
                  ++ "account: opened again in July")%string in
  let out :=
    process_messages_and_save_to_memory Sample.indel_ratio Sample.embed "T2" "T2"
      ["Felix: I opened it again in July"; "Neko: noted"] Sample.first_mention
      (Sample.replies [("account", "account: opened again in July")]) in
  get_keyword Sample.first_mention "account"
  = Ok (Sample.kw "account" (Sample.embed "account: closed in June"))
  /\ search_keywords Sample.indel_ratio Sample.first_mention "account" 70
     = [Sample.kw "account" [Sample.f0; Sample.f1]]
  /\ map relation_desc (get_relation_by_node Sample.first_mention "account")
     = ["account: closed in June"]
  /\ ing_keywords
       (fold_left (ingest_step Sample.indel_ratio Sample.embed Sample.first_mention "msg-T2")
                  [("account", "account: opened again in July")] (mkIngest [] [] 0))
     = [new_KeywordNode "account" "account" "" (Some refreshed)]
  /\ refreshed = [Sample.f1; Sample.f0]
  /\ snd out = Ok tt
  /\ fst out = Sample.second_mention
  /\ keywords Sample.second_mention = [Sample.kw "account" [Sample.f0; Sample.f1]]
  /\ get_keyword Sample.second_mention "account"
     = Ok (Sample.kw "account" [Sample.f0; Sample.f1])
  /\ map relation_desc (get_relation_by_node Sample.second_mention "account")
     = ["account: closed in June"; "account: opened again in July"].
Proof. intros refreshed out. repeat apply conj; vm_compute; reflexivity. Qed.

(** ** Ranking *)

Section Ranking.

Import Utils.

Ltac cmp_cases :=
  repeat match goal with
         | H : context [Z.compare ?a ?b] |- _ => destruct (Z.compare_spec a b)
         | |- context [Z.compare ?a ?b] => destruct (Z.compare_spec a b)
         | H : context [Pos.compare_cont Eq ?a ?b] |- _ =>
             change (Pos.compare_cont Eq a b) with (Pos.compare a b) in *;
             destruct (Pos.compare_spec a b)
         | |- context [Pos.compare_cont Eq ?a ?b] =>
             change (Pos.compare_cont Eq a b) with (Pos.compare a b) in *;
             destruct (Pos.compare_spec a b)
         end.

Ltac by_float_cases :=
  unfold np_le, np_lt, Float64.ltb, Float64.is_nan, SFltb, SFcompare;
  repeat match goal with
         | x : Float64.float |- _ => destruct x as [[]|[]| |[] ? ?]
         end;
  cbn; try congruence; cmp_cases; cbn; try congruence; intros; try lia.

(** numpy's order on floats is a total preorder. *)
Lemma np_lt_asym (a b : Float64.float) : np_lt a b = true -> np_lt b a = false.
Proof. by_float_cases. Qed.

Lemma np_le_trans (a b c : Float64.float) :
  np_le a b = true -> np_le b c = true -> np_le a c = true.
Proof. by_float_cases. Qed.

Lemma np_le_refl (a : Float64.float) : np_le a a = true.
Proof.
  unfold np_le. destruct (np_lt a a) eqn:E; [|reflexivity].
  now rewrite (np_lt_asym _ _ E) in E.
Qed.

Lemma insert_by_perm (x : nat * Float64.float) (l : list (nat * Float64.float)) :
  Permutation (insert_by x l) (x :: l).
Proof.
  induction l as [|y l IH]; simpl; [reflexivity|].
  destruct (np_lt (snd y) (snd x)); [|reflexivity].
  rewrite IH. apply perm_swap.
Qed.

Lemma insertion_sort_perm (l : list (nat * Float64.float)) :
  Permutation (fold_right insert_by [] l) l.
Proof.
  induction l as [|x l IH]; simpl; [reflexivity|].
  rewrite insert_by_perm. now constructor.
Qed.

Lemma insert_by_sorted (x : nat * Float64.float) (l : list (nat * Float64.float)) :
  StronglySorted le_pair l -> StronglySorted le_pair (insert_by x l).
Proof.
  induction l as [|y l IH]; intros Hs; simpl.
  - repeat constructor.
  - inversion Hs as [|? ? Hl Hy]; subst.
    destruct (np_lt (snd y) (snd x)) eqn:E.
    + constructor; [now apply IH|].
      rewrite insert_by_perm. constructor; [|exact Hy].
      unfold le_pair, np_le. now rewrite (np_lt_asym _ _ E).
    + assert (Hxy : le_pair x y) by (unfold le_pair, np_le; now rewrite E).
      constructor; [exact Hs|]. constructor; [exact Hxy|].
      eapply Forall_impl; [|exact Hy].
      intros z Hz. exact (np_le_trans _ _ _ Hxy Hz).
Qed.

Lemma insertion_sort_sorted (l : list (nat * Float64.float)) :
  StronglySorted le_pair (fold_right insert_by [] l).
Proof.
  induction l as [|x l IH]; simpl; [constructor | now apply insert_by_sorted].
Qed.

Lemma sorted_below_last (l : list (nat * Float64.float)) (a : nat * Float64.float) :
  StronglySorted le_pair (l ++ [a]) -> Forall (fun y => le_pair y a) l.
Proof.
  induction l as [|y l IH]; intros Hs; [constructor|].
  inversion Hs as [|? ? Hl Hy]; subst. constructor; [|now apply IH].
  rewrite Forall_forall in Hy. apply Hy. apply in_or_app; right; now left.
Qed.

Lemma in_combine_seq (l : list Float64.float) (s j : nat) (y : Float64.float) :
  In (j, y) (combine (seq s (length l)) l) <-> s <= j /\ nth_error l (j - s) = Some y.
Proof.
  revert s; induction l as [|x l IH]; intros s; simpl.
  - split; [easy | intros [_ H]; now destruct (j - s)].
  - rewrite IH. split.
    + intros [[= <- <-]|[Hs Hn]].
      * split; [lia|]. now rewrite Nat.sub_diag.
      * split; [lia|]. replace (j - s) with (S (j - S s)) by lia. exact Hn.
    + intros [Hs Hn]. destruct (j - s) as [|d] eqn:Ed.
      * left. injection Hn as <-. f_equal. lia.
      * right. split; [lia|]. replace (j - S s) with d by lia. exact Hn.
Qed.

Lemma in_enumerate (l : list Float64.float) (j : nat) (y : Float64.float) :
  In (j, y) (enumerate l) <-> nth_error l j = Some y.
Proof.
  unfold enumerate. rewrite in_combine_seq, Nat.sub_0_r.
  split; [now intros [_ H] | intros H; split; [lia | exact H]].
Qed.

(** The first index of the reversed [argsort] has a value that no value
    of the list exceeds. *)
Lemma argsort_top (l : list Float64.float) :
  l <> [] ->
  exists t x, hd_error (rev (argsort l)) = Some t
              /\ nth_error l t = Some x
              /\ forall j y, nth_error l j = Some y -> np_le y x = true.
Proof.
  intros Hne. unfold argsort.
  pose proof (insertion_sort_perm (enumerate l)) as Hperm.
  pose proof (insertion_sort_sorted (enumerate l)) as Hsort.
  destruct (fold_right insert_by [] (enumerate l)) as [|p ps] eqn:Ep.
  - apply Permutation_nil in Hperm. destruct l; [now elim Hne | discriminate].
  - destruct (exists_last (l := p :: ps)) as (init & [t x] & Hlast); [discriminate|].
    rewrite Hlast in *. clear Hlast Ep p ps.
    exists t, x. split; [|split].
    + rewrite map_app, rev_app_distr. reflexivity.
    + apply in_enumerate. eapply Permutation_in; [exact Hperm|].
      apply in_or_app; right; now left.
    + intros j y Hj. apply in_enumerate in Hj.
      apply (Permutation_in _ (Permutation_sym Hperm)) in Hj.
      apply in_app_or in Hj as [Hin|[[= -> ->]|[]]].
      * apply sorted_below_last in Hsort. rewrite Forall_forall in Hsort.
        exact (Hsort _ Hin).
      * apply np_le_refl.
Qed.

Lemma sort_items_by_relevance_spec (q : list Float64.float)
      (items : list (list Float64.float)) (sims : list Float64.float)
      (ranks : list nat) :
  sort_items_by_relevance q items = Ok (sims, ranks) ->
  items <> [] /\ sims = map (similarity q) items /\ ranks = rev (argsort sims).
Proof.
  unfold sort_items_by_relevance.
  destruct (shapes_ok q items) eqn:Es; [|discriminate].
  intros [= <- <-]. split; [|split].
  - destruct items; [discriminate | discriminate].
  - unfold normalize_items. rewrite map_map. reflexivity.
  - reflexivity.
Qed.

End Ranking.

(** ** Retrieval *)

Lemma dedup_incl (l : list RelationEdge) (r : RelationEdge) :
  In r (dedup l) -> In r l.
Proof.
  induction l as [|x l IH]; simpl; [easy|].
  intros [->|H]; [now left|]. right. apply IH.
  now apply filter_In in H as [H _].
Qed.

Section Retrieval.

Variable fuzz_ratio : string -> string -> Float64.float.
Variable embed_query : string -> list Float64.float.
Variable set_order : list RelationEdge -> list RelationEdge.

(** Iterating over a set visits each of its members once. *)
Hypothesis set_order_perm : forall l, Permutation (set_order l) l.

Lemma retrieve_step_spec (st : Store) (memory memory' : list string)
      (kv : string * string) :
  retrieve_step fuzz_ratio embed_query set_order st memory kv = Ok memory' ->
  exists pick, contribution fuzz_ratio embed_query st kv pick
               /\ memory' = memory ++ line_of pick.
Proof.
  destruct kv as [k v]. unfold retrieve_step, contribution. cbn [fst snd].
  destruct (matched_keywords fuzz_ratio st k (embed_query v)) as [kws|e] eqn:Ek;
    cbn [bind]; [|discriminate].
  destruct (attached_relations st kws) as [|r0 rs] eqn:Er.
  - intros [= <-]. exists None. split.
    + exists kws. split; [reflexivity | exact Er].
    + cbn. now rewrite app_nil_r.
  - set (rels := list_of_set set_order (r0 :: rs)).
    destruct (Utils.sort_items_by_relevance (embed_query v)
                (map relation_embeddings rels)) as [[sims ranks]|e] eqn:Es;
      cbn [bind]; [|discriminate].
    destruct (getitem sims 0); cbn [bind]; [|discriminate].
    destruct ranks as [|t ranks']; [discriminate|].
    cbn [firstn]. unfold select_elements. cbn [flat_map].
    destruct (nth_error rels t) as [r|] eqn:Hnth; [|discriminate].
    cbn [app getitem nth_error bind map].
    intros [= <-]. exists (Some r). split; [|reflexivity].
    exists kws. split; [reflexivity|]. rewrite Er.
    apply dedup_incl. apply (Permutation_in _ (set_order_perm _)).
    eapply nth_error_In; exact Hnth.
Qed.

Lemma retrieve_loop_spec (st : Store) (items : dict) (memory lines : list string) :
  retrieve_loop fuzz_ratio embed_query set_order st memory items = Ok lines ->
  exists picks, Forall2 (contribution fuzz_ratio embed_query st) items picks
                /\ lines = memory ++ flat_map line_of picks.
Proof.
  revert memory; induction items as [|kv items IH]; intros memory; cbn [retrieve_loop].
  - intros [= <-]. exists []. split; [constructor | now rewrite app_nil_r].
  - destruct (retrieve_step fuzz_ratio embed_query set_order st memory kv)
      as [memory'|e] eqn:Estep; cbn [bind]; [|discriminate].
    intros Hloop.
    apply retrieve_step_spec in Estep as (pick & Hpick & ->).
    apply IH in Hloop as (picks & Hpicks & ->).
    exists (pick :: picks). split; [now constructor|].
    cbn [flat_map]. now rewrite app_assoc.
Qed.

Lemma lines_bound (picks : list (option RelationEdge)) :
  length (flat_map line_of picks) <= length picks.
Proof.
  induction picks as [|[r|] picks IH]; simpl; lia.
Qed.

(** The retrieved text is made of the lines of the components of the
    decomposed query, taken in the order of the mapping; each component
    gives no line when its keywords have no relation, and otherwise one
    line, the description of a relation attached to one of its keywords.
    So there are at most as many lines as components.  Which of the
    attached relations gives the line is another matter: see below. *)
Lemma retrieval_lines_follow_the_mapping
      (st : Store) (model : llm) (text : string) :
  retrieve_relevant_memory fuzz_ratio embed_query set_order st model = Ok text ->
  exists (query_dict : dict) (picks : list (option RelationEdge)),
    fst (generate_summary_dict model 3) = Some query_dict
    /\ Forall2 (contribution fuzz_ratio embed_query st) query_dict picks
    /\ text = join newline (flat_map line_of picks)
    /\ length (flat_map line_of picks) <= length query_dict.
Proof.
  unfold retrieve_relevant_memory.
  destruct (fst (generate_summary_dict model 3)) as [query_dict|]; [|discriminate].
  destruct (retrieve_loop fuzz_ratio embed_query set_order st [] query_dict)
    as [lines|e] eqn:Eloop; cbn [bind]; [|discriminate].
  intros [= <-].
  apply retrieve_loop_spec in Eloop as (picks & Hpicks & ->).
  exists query_dict, picks. repeat split; try assumption.
  rewrite (Forall2_length Hpicks). apply lines_bound.
Qed.

End Retrieval.

(** C2 at a keyword with two descriptions, one whose embedding is the
    subquery's own (cosine similarity 1) and one whose embedding is the
    zero vector: the ranking divides the zero vector by its norm, its entry
    is a NaN, numpy sorts a NaN after every number and the reversed order
    puts it first.  Whatever the order in which Python iterates the set of
    the two relations, the line retrieved is the description of the
    relation with the zero embedding, not the description of the relation
    of cosine similarity 1. *)
Theorem zero_embedding_relation_is_retrieved_first
        (set_order : list RelationEdge -> list RelationEdge)
        (set_order_perm : forall l, Permutation (set_order l) l) :
  let q := Sample.embed "when was the account closed" in
  Utils.cosine_similarity q (relation_embeddings Sample.closed_relation)
  = Ok Float64.one
  /\ Utils.norm (relation_embeddings Sample.junk_relation) = Float64.zero
  /\ Utils.sort_items_by_relevance q
       [relation_embeddings Sample.closed_relation;
        relation_embeddings Sample.junk_relation]
     = Ok ([Float64.one; Float64.nan], [1; 0])
  /\ Utils.sort_items_by_relevance q
       [relation_embeddings Sample.junk_relation;
        relation_embeddings Sample.closed_relation]
     = Ok ([Float64.nan; Float64.one], [0; 1])
  /\ retrieve_relevant_memory Sample.indel_ratio Sample.embed set_order
       Sample.junk_store (Sample.replies Sample.closing_query)
     = Ok "junk: zero embedding".
Proof.
  intros q. split; [|split; [|split; [|split]]];
    [vm_compute; reflexivity ..|].
  unfold retrieve_relevant_memory.
  replace (fst (generate_summary_dict (Sample.replies Sample.closing_query) 3))
    with (Some Sample.closing_query) by (vm_compute; reflexivity).
  unfold Sample.closing_query. cbn [retrieve_loop]. unfold retrieve_step.
  replace (matched_keywords Sample.indel_ratio Sample.junk_store "account"
             (Sample.embed "when was the account closed"))
    with (Ok [Sample.kw "account" [Sample.f0; Sample.f1]])
    by (vm_compute; reflexivity).
  cbn [bind].
  replace (attached_relations Sample.junk_store [Sample.kw "account" [Sample.f0; Sample.f1]])
    with [Sample.closed_relation; Sample.junk_relation] by (vm_compute; reflexivity).
  unfold list_of_set.
  replace (dedup [Sample.closed_relation; Sample.junk_relation])
    with [Sample.closed_relation; Sample.junk_relation] by (vm_compute; reflexivity).
  destruct (Permutation_length_2_inv
              (Permutation_sym
                 (set_order_perm [Sample.closed_relation; Sample.junk_relation])))
    as [-> | ->]; vm_compute; reflexivity.
Qed.

(** The same when the set is iterated in the order of insertion. *)
Lemma zero_embedding_relation_is_retrieved_first_witness :
  retrieve_relevant_memory Sample.indel_ratio Sample.embed (fun l => l)
    Sample.junk_store (Sample.replies Sample.closing_query)
  = Ok "junk: zero embedding".
Proof.
  refine (proj2 (proj2 (proj2 (proj2
            (zero_embedding_relation_is_retrieved_first (fun l => l) _))))).
  intros l. apply Permutation_refl.
Defined.

(** ** Retrieval returns when the embeddings have one dimension *)

Lemma map_fst_combine_seq (l : list Float64.float) (s : nat) :
  map fst (combine (seq s (length l)) l) = seq s (length l).
Proof.
  revert s; induction l as [|x l IH]; intros s; simpl; [reflexivity|].
  now rewrite IH.
Qed.

(** [argsort] is a permutation of the indices. *)
Lemma argsort_perm (l : list Float64.float) :
  Permutation (Utils.argsort l) (seq 0 (length l)).
Proof.
  unfold Utils.argsort.
  rewrite (Permutation_map fst (insertion_sort_perm (Utils.enumerate l))).
  unfold Utils.enumerate. now rewrite map_fst_combine_seq.
Qed.

Lemma ranks_in_range (l : list Float64.float) (r : nat) :
  In r (rev (Utils.argsort l)) -> r < length l.
Proof.
  intros H. apply in_rev in H.
  apply (Permutation_in _ (argsort_perm l)) in H. apply in_seq in H. lia.
Qed.

Lemma ranks_length (l : list Float64.float) :
  length (rev (Utils.argsort l)) = length l.
Proof.
  rewrite length_rev, (Permutation_length (argsort_perm l)). apply length_seq.
Qed.

Lemma mapM_ok {A B : Type} (f : A -> result B) (l : list A) :
  (forall x, In x l -> exists b, f x = Ok b) -> exists bs, mapM f l = Ok bs.
Proof.
  induction l as [|a l IH]; intros H; simpl; [now exists []|].
  destruct (H a (or_introl eq_refl)) as (b & ->).
  destruct IH as (bs & ->); [intros x Hx; apply H; now right|].
  now exists (b :: bs).
Qed.

Lemma getitem_ok {A : Type} (l : list A) (i : nat) :
  i < length l -> exists a, getitem l i = Ok a /\ In a l.
Proof.
  intros H. unfold getitem.
  destruct (nth_error l i) as [a|] eqn:E.
  - exists a. split; [reflexivity | eapply nth_error_In; exact E].
  - apply nth_error_None in E. lia.
Qed.

Lemma shapes_ok_uniform (q : list Float64.float) (items : list (list Float64.float)) :
  items <> [] -> (forall row, In row items -> length row = length q) ->
  Utils.shapes_ok q items = true.
Proof.
  intros Hne H. unfold Utils.shapes_ok. destruct items as [|row items]; [now elim Hne|].
  apply forallb_forall. intros r Hr. apply Nat.eqb_eq. now apply H.
Qed.

(** The semantic search returns when the query is not empty and every
    stored keyword has an embedding of the length of the query. *)
Lemma search_by_embedding_returns (st : Store) (q : list Float64.float)
      (threshold : Float64.float) :
  q <> [] ->
  (forall k : KeywordNode, In k (keywords st) -> length (embeddings k) = length q) ->
  exists kws, search_keywords_by_embedding st q threshold = Ok kws
              /\ incl kws (keywords st).
Proof.
  intros Hq Hdim. unfold search_keywords_by_embedding.
  destruct q as [|x q]; [now elim Hq|]. cbn [length Nat.eqb].
  destruct (keywords st) as [|k ks] eqn:Ek.
  - exists []. split; [reflexivity | easy].
  - unfold Utils.sort_items_by_relevance. rewrite shapes_ok_uniform.
    + cbn [bind].
      set (sims := map _ (Utils.normalize_items _)).
      assert (Hlen : length sims = length (k :: ks)).
      { unfold sims, Utils.normalize_items. now rewrite !length_map. }
      match goal with |- context [mapM ?f ?l] => destruct (mapM_ok f l) as (ids & ->) end.
      * intros p Hp. apply filter_In in Hp as [Hp _].
        destruct p as [i y]. apply in_enumerate in Hp.
        assert (Hi : i < length (rev (Utils.argsort sims))).
        { rewrite ranks_length. apply nth_error_Some. now rewrite Hp. }
        cbn [fst]. destruct (getitem_ok _ _ Hi) as (r & -> & Hr). cbn [bind].
        apply ranks_in_range in Hr. rewrite Hlen in Hr.
        destruct (getitem_ok (k :: ks) r Hr) as (row & -> & _). cbn [bind].
        now eexists.
      * cbn [bind]. eexists. split; [reflexivity|].
        intros k' Hk'. now apply select_in_In in Hk' as [Hk' _].
    + discriminate.
    + intros row Hrow. apply in_map_iff in Hrow as (k' & <- & Hk'). now apply Hdim.
Qed.

Section RetrievalReturns.

Variable fuzz_ratio : string -> string -> Float64.float.
Variable embed_query : string -> list Float64.float.
Variable set_order : list RelationEdge -> list RelationEdge.
Variable dim : nat.

Hypothesis set_order_perm : forall l, Permutation (set_order l) l.

(** The embedding service gives vectors of one dimension, and so do the
    rows of the store. *)
Hypothesis dim_positive : 0 < dim.
Hypothesis embed_dim : forall text, length (embed_query text) = dim.

Lemma attached_relations_stored (st : Store) (kws : list KeywordNode) (r : RelationEdge) :
  In r (attached_relations st kws) -> In r (relations st).
Proof.
  unfold attached_relations, get_relation_by_node, select.
  intros H. apply in_flat_map in H as (kw & _ & H). now apply filter_In in H as [H _].
Qed.

Lemma retrieve_step_returns (st : Store) (memory : list string) (kv : string * string) :
  uniform dim st ->
  exists memory', retrieve_step fuzz_ratio embed_query set_order st memory kv = Ok memory'.
Proof.
  intros [Hk Hr]. destruct kv as [k v]. unfold retrieve_step.
  assert (Hm : exists kws, matched_keywords fuzz_ratio st k (embed_query v) = Ok kws).
  { unfold matched_keywords. destruct (search_keywords fuzz_ratio st k 70); [|now eexists].
    destruct (search_by_embedding_returns st (embed_query v)
                (Float64.div (Float64.of_Z 1) (Float64.of_Z 2))) as (kws & -> & _).
    - intros E. pose proof (embed_dim v) as Hd. rewrite E in Hd. simpl in Hd. lia.
    - intros k' Hk'. rewrite embed_dim. now apply Hk.
    - now eexists. }
  destruct Hm as (kws & ->). cbn [bind].
  destruct (attached_relations st kws) as [|r0 rs] eqn:Er; [now eexists|].
  set (rels := list_of_set set_order (r0 :: rs)).
  assert (Hin : forall r, In r rels -> In r (relations st)).
  { intros r H. unfold rels, list_of_set in H.
    apply (Permutation_in _ (set_order_perm _)) in H. apply dedup_incl in H.
    rewrite <- Er in H. eapply attached_relations_stored; exact H. }
  assert (Hne : rels <> []).
  { intros E. unfold rels, list_of_set in E.
    pose proof (Permutation_length (set_order_perm (dedup (r0 :: rs)))) as Hl.
    rewrite E in Hl. discriminate. }
  unfold Utils.sort_items_by_relevance. rewrite shapes_ok_uniform.
  - cbn [bind].
    set (sims := map _ (Utils.normalize_items _)).
    assert (Hlen : length sims = length rels).
    { unfold sims, Utils.normalize_items. now rewrite !length_map. }
    destruct (rev (Utils.argsort sims)) as [|t ranks] eqn:Eranks.
    { pose proof (ranks_length sims) as Hl. rewrite Eranks, Hlen in Hl.
      destruct rels; [now elim Hne | discriminate]. }
    assert (Ht : t < length rels).
    { rewrite <- Hlen. apply ranks_in_range. rewrite Eranks. now left. }
    cbn [firstn]. unfold select_elements. cbn [flat_map].
    destruct (nth_error rels t) as [r|] eqn:En; [|apply nth_error_None in En; lia].
    destruct (getitem_ok sims 0) as (x & -> & _); [rewrite Hlen; lia|].
    cbn. now eexists.
  - destruct rels; [now elim Hne | discriminate].
  - intros row Hrow. apply in_map_iff in Hrow as (r & <- & Hrow).
    rewrite embed_dim. apply Hr. now apply Hin.
Qed.

(** Over a store whose embeddings all have the dimension of the embedding
    service, the loop of the retrieval returns for every decomposed
    query. *)
Lemma retrieve_loop_returns (st : Store) (items : dict) (memory : list string) :
  uniform dim st ->
  exists lines, retrieve_loop fuzz_ratio embed_query set_order st memory items = Ok lines.
Proof.
  intros Hu. revert memory; induction items as [|kv items IH]; intros memory;
    cbn [retrieve_loop]; [now eexists|].
  destruct (retrieve_step_returns st memory kv Hu) as (memory' & ->). cbn [bind].
  apply IH.
Qed.

End RetrievalReturns.

(* ================================================================= *)
(** * Part III: more properties of the code *)
(* ================================================================= *)

(** ** [memory/utils.py] *)

Lemma sorted_snoc {A : Type} (R : A -> A -> Prop) (l : list A) (a : A) :
  StronglySorted R l -> Forall (fun y => R y a) l -> StronglySorted R (l ++ [a]).
Proof.
  induction l as [|x l IH]; intros Hs Hf; simpl.
  - repeat constructor.
  - inversion Hs as [|? ? Hl Hx]; subst. inversion Hf as [|? ? Hxa Hla]; subst.
    constructor; [now apply IH|].
    apply Forall_app. split; [exact Hx | now constructor].
Qed.

Lemma sorted_rev {A : Type} (R : A -> A -> Prop) (l : list A) :
  StronglySorted R l -> StronglySorted (fun x y => R y x) (rev l).
Proof.
  induction l as [|x l IH]; intros Hs; simpl; [constructor|].
  inversion Hs as [|? ? Hl Hx]; subst.
  apply sorted_snoc; [now apply IH|].
  apply Forall_rev. exact Hx.
Qed.

Lemma sorted_map_snd (R : Float64.float -> Float64.float -> Prop)
      (l : list (nat * Float64.float)) :
  StronglySorted (fun p q => R (snd p) (snd q)) l -> StronglySorted R (map snd l).
Proof.
  induction 1 as [|p l Hs IH Hp]; simpl; constructor; [exact IH|].
  apply Forall_map. exact Hp.
Qed.

(** X1: when the ranking returns, it gives one similarity per item, its
    ranks are a permutation of the indices of the items, and the
    similarities read in the order of the ranks never go up (in the order
    numpy sorts by). *)
Theorem ranking_is_a_descending_permutation
        (q : list Float64.float) (items : list (list Float64.float))
        (sims : list Float64.float) (ranks : list nat) :
  Utils.sort_items_by_relevance q items = Ok (sims, ranks) ->
  length sims = length items
  /\ Permutation ranks (seq 0 (length items))
  /\ StronglySorted (fun x y => Utils.np_le y x = true)
                    (map (fun r => nth r sims Float64.nan) ranks).
Proof.
  intros H. apply sort_items_by_relevance_spec in H as (_ & Hsims & Hranks).
  assert (Hlen : length sims = length items) by (rewrite Hsims; apply length_map).
  split; [exact Hlen|]. split.
  - rewrite Hranks, <- Hlen, <- (argsort_perm sims). apply Permutation_sym, Permutation_rev.
  - rewrite Hranks. unfold Utils.argsort.
    set (P := fold_right Utils.insert_by [] (Utils.enumerate sims)).
    rewrite <- map_rev, map_map.
    rewrite (map_ext_in _ snd).
    + apply sorted_map_snd.
      apply (sorted_rev Utils.le_pair). apply insertion_sort_sorted.
    + intros [i x] Hin. apply in_rev in Hin.
      apply (Permutation_in _ (insertion_sort_perm _)) in Hin.
      apply in_enumerate in Hin. cbn [fst snd]. now apply nth_error_nth.
Qed.

Lemma ranking_is_a_descending_permutation_witness :
  length [Float64.zero; Float64.one]
  = length [[Sample.f0; Sample.f1]; [Sample.f1; Sample.f0]]
  /\ Permutation [1; 0] (seq 0 (length [[Sample.f0; Sample.f1]; [Sample.f1; Sample.f0]]))
  /\ StronglySorted (fun x y => Utils.np_le y x = true)
                    (map (fun r => nth r [Float64.zero; Float64.one] Float64.nan) [1; 0]).
Proof.
  refine (ranking_is_a_descending_permutation
            [Sample.f1; Sample.f0]
            [[Sample.f0; Sample.f1]; [Sample.f1; Sample.f0]]
            [Float64.zero; Float64.one] [1; 0] _).
  vm_compute. reflexivity.
Defined.

(** ** [run.py]: the helpers *)

Lemma select_elements_all {A : Type} (pre l : list A) :
  select_elements (pre ++ l) (seq (length pre) (length l)) = l.
Proof.
  revert pre; induction l as [|x l IH]; intros pre; [reflexivity|].
  cbn [length seq]. unfold select_elements in *. cbn [flat_map].
  rewrite nth_error_app2, Nat.sub_diag by lia. cbn [nth_error app]. f_equal.
  specialize (IH (pre ++ [x])). rewrite <- app_assoc, length_app in IH.
  cbn [app length] in IH. rewrite Nat.add_1_r in IH. exact IH.
Qed.

(** X3: taking the elements of a list at the ranks the ranking gives to
    their embeddings yields the same elements in another order: none is
    lost and none comes twice. *)
Theorem select_elements_at_ranks_is_a_permutation
        {A : Type} (embedding_of : A -> list Float64.float) (lst : list A)
        (q sims : list Float64.float) (ranks : list nat) :
  Utils.sort_items_by_relevance q (map embedding_of lst) = Ok (sims, ranks) ->
  Permutation (select_elements lst ranks) lst.
Proof.
  intros H. apply sort_items_by_relevance_spec in H as (_ & Hsims & Hranks).
  assert (Hperm : Permutation ranks (seq 0 (length lst))).
  { rewrite Hranks, <- Permutation_rev, argsort_perm, Hsims, !length_map. reflexivity. }
  unfold select_elements. rewrite Hperm.
  exact (eq_ind _ (fun l => Permutation l lst) (Permutation_refl lst) _
                (eq_sym (select_elements_all [] lst))).
Qed.

Lemma select_elements_at_ranks_is_a_permutation_witness :
  Permutation (select_elements ["orthogonal"; "equal"] [1; 0]) ["orthogonal"; "equal"].
Proof.
  refine (select_elements_at_ranks_is_a_permutation
            (fun s : string => if String.eqb s "equal" then [Sample.f1; Sample.f0]
                               else [Sample.f0; Sample.f1])
            ["orthogonal"; "equal"] [Sample.f1; Sample.f0]
            [Float64.zero; Float64.one] [1; 0] _).
  vm_compute. reflexivity.
Defined.

Lemma in_combine_nth_error {A B : Type} (l : list A) (l' : list B) (a : A) (b : B) :
  In (a, b) (combine l l') <->
  exists i, nth_error l i = Some a /\ nth_error l' i = Some b.
Proof.
  revert l'; induction l as [|x l IH]; intros [|y l']; simpl.
  - split; [easy | intros ([|i] & H & _); discriminate].
  - split; [easy | intros ([|i] & H & _); discriminate].
  - split; [easy | intros ([|i] & _ & H); discriminate].
  - rewrite IH. split.
    + intros [[= <- <-]|(i & Ha & Hb)]; [now exists 0 | now exists (S i)].
    + intros ([|i] & Ha & Hb); simpl in Ha, Hb.
      * left. congruence.
      * right. now exists i.
Qed.

(** X4: [_choose_ranks] raises its ValueError exactly when the two lists
    differ in length; otherwise it returns the ranks whose similarity, at
    the same position, is above 0.8, and only those. *)
Theorem choose_ranks_keeps_ranks_above_threshold
        (similarities : list Float64.float) (ranks : list nat) :
  (length similarities <> length ranks ->
   _choose_ranks similarities ranks
   = Raise (ValueError "The lengths of similarities and ranks must match."))
  /\ (length similarities = length ranks ->
      exists chosen,
        _choose_ranks similarities ranks = Ok chosen
        /\ forall r, In r chosen <->
                     exists i sim, nth_error similarities i = Some sim
                                   /\ nth_error ranks i = Some r
                                   /\ Float64.ltb f_0_8 sim = true).
Proof.
  unfold _choose_ranks. split; intros Hlen.
  - apply Nat.eqb_neq in Hlen. now rewrite Hlen.
  - apply Nat.eqb_eq in Hlen. rewrite Hlen. cbn [negb].
    eexists. split; [reflexivity|]. intros r. rewrite in_map_iff. split.
    + intros ([sim r'] & Hr & Hin). cbn in Hr. subst r'.
      apply filter_In in Hin as [Hin Hgt].
      apply in_combine_nth_error in Hin as (i & Hs & Hr).
      now exists i, sim.
    + intros (i & sim & Hs & Hr & Hgt). exists (sim, r). split; [reflexivity|].
      apply filter_In. split; [|exact Hgt].
      apply in_combine_nth_error. now exists i.
Qed.

Lemma choose_ranks_keeps_ranks_above_threshold_witness :
  _choose_ranks [Float64.one] [0; 1]
  = Raise (ValueError "The lengths of similarities and ranks must match.")
  /\ exists chosen, _choose_ranks [Float64.zero; Float64.one] [1; 0] = Ok chosen
                    /\ forall r, In r chosen <->
                                 exists i sim,
                                   nth_error [Float64.zero; Float64.one] i = Some sim
                                   /\ nth_error [1; 0] i = Some r
                                   /\ Float64.ltb f_0_8 sim = true.
Proof.
  split.
  - refine (proj1 (choose_ranks_keeps_ranks_above_threshold [Float64.one] [0; 1]) _).
    discriminate.
  - refine (proj2 (choose_ranks_keeps_ranks_above_threshold
                     [Float64.zero; Float64.one] [1; 0]) _).
    reflexivity.
Defined.

(** ** [llm/utils.py] *)

Lemma retry_loop_first_truthy (model : llm) (fuel calls i : nat) :
  calls <= i < calls + fuel ->
  truthy (model i) = true ->
  (forall j, calls <= j < i -> truthy (model j) = false) ->
  retry_loop model calls fuel = (model i, S i).
Proof.
  revert calls; induction fuel as [|fuel IH]; intros calls Hi Ht Hbefore; [lia|].
  cbn [retry_loop]. destruct (Nat.eq_dec calls i) as [->|Hne].
  - now rewrite Ht.
  - rewrite (Hbefore calls) by lia. apply IH; [lia | exact Ht|].
    intros j Hj. apply Hbefore. lia.
Qed.

Lemma retry_loop_all_falsy (model : llm) (fuel calls : nat) :
  (forall j, calls <= j < calls + fuel -> truthy (model j) = false) ->
  retry_loop model calls fuel = (None, calls + fuel).
Proof.
  revert calls; induction fuel as [|fuel IH]; intros calls H; cbn [retry_loop].
  - now rewrite Nat.add_0_r.
  - rewrite (H calls) by lia. rewrite IH; [f_equal; lia|].
    intros j Hj. apply H. lia.
Qed.

(** X5: [generate_summary_dict] returns the first reply, among the first
    [max_retry], that parses to a non-empty mapping, after exactly as many
    calls as it took to get it; when there is none it returns [None] after
    exactly [max_retry] calls. *)
Theorem generate_summary_dict_returns_first_mapping (model : llm) (max_retry : nat) :
  (forall i, i < max_retry ->
             truthy (model i) = true ->
             (forall j, j < i -> truthy (model j) = false) ->
             generate_summary_dict model max_retry = (model i, S i))
  /\ ((forall j, j < max_retry -> truthy (model j) = false) ->
      generate_summary_dict model max_retry = (None, max_retry)).
Proof.
  unfold generate_summary_dict. split.
  - intros i Hi Ht Hbefore. apply retry_loop_first_truthy; [lia | exact Ht|].
    intros j Hj. apply Hbefore. lia.
  - intros H. apply (retry_loop_all_falsy model max_retry 0).
    intros j Hj. apply H. lia.
Qed.

(** The third reply is the first that parses to a mapping with an entry. *)
Lemma generate_summary_dict_returns_first_mapping_witness :
  generate_summary_dict
    (fun n => match n with
              | 0 => None
              | 1 => Some []
              | _ => Some [("account", "account: closed in June")]
              end) 3
  = (Some [("account", "account: closed in June")], 3)
  /\ generate_summary_dict Sample.all_empty 3 = (None, 3).
Proof.
  split.
  - refine (proj1 (generate_summary_dict_returns_first_mapping _ 3) 2 _ _ _).
    + lia.
    + reflexivity.
    + intros [|[|j]] Hj; [reflexivity | reflexivity | lia].
  - refine (proj2 (generate_summary_dict_returns_first_mapping Sample.all_empty 3) _).
    intros j _. reflexivity.
Defined.

(** ** [memory/sqlite_memory_manager.py]: the tables *)

Section Tables.

Variable R : Type.
Variable key : R -> string.

Lemma has_key_in_spec (table : list R) (x : string) :
  has_key key table x = true <-> In x (map key table).
Proof.
  unfold has_key. rewrite existsb_exists, in_map_iff.
  split; intros (r & H1 & H2).
  - exists r. split; [now apply String.eqb_eq | exact H1].
  - exists r. split; [exact H2 | now apply String.eqb_eq].
Qed.

Lemma insert_or_ignore_begins (row : R) (table : list R) :
  begins table (insert_or_ignore key row table).
Proof.
  unfold insert_or_ignore, begins.
  destruct (existsb _ table); [exists []; now rewrite app_nil_r | now exists [row]].
Qed.

Lemma begins_trans (l1 l2 l3 : list R) : begins l1 l2 -> begins l2 l3 -> begins l1 l3.
Proof.
  intros (m1 & ->) (m2 & ->). exists (m1 ++ m2). now rewrite app_assoc.
Qed.

Lemma fold_insert_begins (rows table : list R) :
  begins table (fold_left (fun t row => insert_or_ignore key row t) rows table).
Proof.
  revert table; induction rows as [|row rows IH]; intros table; simpl.
  - exists []. now rewrite app_nil_r.
  - eapply begins_trans; [apply insert_or_ignore_begins | apply IH].
Qed.

Lemma insert_or_ignore_unique (row : R) (table : list R) :
  NoDup (map key table) -> NoDup (map key (insert_or_ignore key row table)).
Proof.
  intros Hnd. unfold insert_or_ignore.
  destruct (existsb (fun r => String.eqb (key r) (key row)) table) eqn:E; [exact Hnd|].
  rewrite map_app. cbn [map].
  apply NoDup_app; [exact Hnd | repeat constructor; easy |].
  intros x Hx [<-|[]].
  apply has_key_in_spec in Hx. unfold has_key in Hx. congruence.
Qed.

Lemma fold_insert_unique (rows table : list R) :
  NoDup (map key table) ->
  NoDup (map key (fold_left (fun t row => insert_or_ignore key row t) rows table)).
Proof.
  revert table; induction rows as [|row rows IH]; intros table H; simpl; [exact H|].
  apply IH. now apply insert_or_ignore_unique.
Qed.

Lemma begins_has_key (l1 l2 : list R) (x : string) :
  begins l1 l2 -> has_key key l1 x = true -> has_key key l2 x = true.
Proof.
  intros (more & ->) H. unfold has_key in *. rewrite existsb_app, H. reflexivity.
Qed.

Lemma insert_or_ignore_has_key (row : R) (table : list R) :
  has_key key (insert_or_ignore key row table) (key row) = true.
Proof.
  unfold insert_or_ignore, has_key.
  destruct (existsb (fun r => String.eqb (key r) (key row)) table) eqn:E; [exact E|].
  rewrite existsb_app. cbn. now rewrite String.eqb_refl, orb_true_r.
Qed.

Lemma fold_insert_has_keys (rows table : list R) (row : R) :
  In row rows ->
  has_key key (fold_left (fun t r => insert_or_ignore key r t) rows table) (key row) = true.
Proof.
  revert table; induction rows as [|r rows IH]; intros table; [easy|].
  intros [->|Hin]; simpl; [|now apply IH].
  eapply begins_has_key; [apply fold_insert_begins | apply insert_or_ignore_has_key].
Qed.

Lemma fold_insert_noop (rows table : list R) :
  (forall row, In row rows -> has_key key table (key row) = true) ->
  fold_left (fun t r => insert_or_ignore key r t) rows table = table.
Proof.
  induction rows as [|r rows IH]; intros H; simpl; [reflexivity|].
  assert (Hr : insert_or_ignore key r table = table).
  { unfold insert_or_ignore. unfold has_key in H. rewrite (H r (or_introl eq_refl)).
    reflexivity. }
  rewrite Hr. apply IH. intros row Hrow. apply H. now right.
Qed.

(** The rows a lookup by key finds in a longer table start with the rows it
    found before. *)
Lemma select_begins (p : R -> bool) (l1 l2 : list R) :
  begins l1 l2 -> begins (select p l1) (select p l2).
Proof.
  intros (more & ->). exists (select p more). unfold select. apply filter_app.
Qed.

End Tables.

(** ** [memory/sqlite_memory_manager.py]: lookups *)

Lemma select_app {R : Type} (p : R -> bool) (l1 l2 : list R) :
  select p (l1 ++ l2) = select p l1 ++ select p l2.
Proof. apply filter_app. Qed.

Lemma select_none {R : Type} (key : R -> string) (table : list R) (x : string) :
  has_key key table x = false -> select (fun r => String.eqb (key r) x) table = [].
Proof.
  unfold has_key, select. induction table as [|r t IH]; [reflexivity|].
  simpl. intros H. apply orb_false_iff in H as [Hr Ht]. rewrite Hr. now apply IH.
Qed.

Lemma select_some {R : Type} (key : R -> string) (table : list R) (x : string) :
  has_key key table x = true ->
  exists r rest, select (fun r => String.eqb (key r) x) table = r :: rest
                 /\ In r table /\ key r = x.
Proof.
  intros H. unfold has_key in H. apply existsb_exists in H as (r0 & Hin & Heq).
  destruct (select (fun r => String.eqb (key r) x) table) as [|r rest] eqn:E.
  - assert (Hsel : In r0 (select (fun r => String.eqb (key r) x) table))
      by (apply filter_In; now split).
    rewrite E in Hsel. easy.
  - exists r, rest. split; [reflexivity|].
    assert (Hsel : In r (select (fun r => String.eqb (key r) x) table))
      by (rewrite E; now left).
    apply filter_In in Hsel as [Hr Hk]. split; [exact Hr | now apply String.eqb_eq].
Qed.

Lemma unique_by_key {R : Type} (key : R -> string) (table : list R) (a b : R) :
  NoDup (map key table) -> In a table -> In b table -> key a = key b -> a = b.
Proof.
  induction table as [|x l IH]; [easy|].
  cbn [map]. intros Hnd Ha Hb Hab. inversion Hnd as [|? ? Hx Hl]; subst.
  destruct Ha as [->|Ha], Hb as [->|Hb]; try reflexivity.
  - elim Hx. rewrite Hab. now apply in_map.
  - elim Hx. rewrite <- Hab. now apply in_map.
  - now apply IH.
Qed.

(** X6: how [add_keyword] and [get_keyword] compose: after a keyword is
    added, its id gives that keyword when the id was free, and every other
    lookup, also the one of an id that was taken, gives what it gave
    before. *)
Theorem get_keyword_after_add_keyword (st : Store) (k : KeywordNode) (id : string) :
  get_keyword (add_keyword st k) id
  = if String.eqb (node_id k) id
       && negb (has_key (fun r : KeywordNode => node_id r) (keywords st) (node_id k))
    then Ok k
    else get_keyword st id.
Proof.
  unfold get_keyword, add_keyword, insert_or_ignore. cbn [keywords].
  fold (has_key (fun r : KeywordNode => node_id r) (keywords st) (node_id k)).
  destruct (has_key (fun r : KeywordNode => node_id r) (keywords st) (node_id k)) eqn:E.
  - now rewrite andb_false_r.
  - rewrite andb_true_r, select_app. cbn [select filter].
    destruct (String.eqb_spec (node_id k) id) as [<-|Hne].
    + now rewrite (select_none (fun r : KeywordNode => node_id r) _ _ E).
    + now rewrite app_nil_r.
Qed.

(** X7: [get_keyword] raises its ValueError exactly when no stored keyword
    has the id; what it returns is a stored keyword with the id, and the
    only one when the ids of the table are unique. *)
Theorem get_keyword_finds_the_keyword (st : Store) (id : string) :
  (get_keyword st id = Raise (ValueError ("Keyword with ID " ++ id ++ " not found."))
   <-> forall k : KeywordNode, In k (keywords st) -> node_id k <> id)
  /\ (forall k, get_keyword st id = Ok k -> In k (keywords st) /\ node_id k = id)
  /\ (NoDup (map (fun k : KeywordNode => node_id k) (keywords st)) ->
      forall k : KeywordNode, In k (keywords st) -> node_id k = id ->
                              get_keyword st id = Ok k).
Proof.
  unfold get_keyword.
  destruct (has_key (fun r : KeywordNode => node_id r) (keywords st) id) eqn:E.
  - destruct (select_some _ _ _ E) as (r & rest & Hsel & Hin & Hid). rewrite Hsel.
    split; [|split].
    + split; [discriminate|]. intros H. now elim (H r Hin).
    + intros k [= <-]. now split.
    + intros Hnd k Hk Hkid. f_equal.
      apply (unique_by_key (fun r : KeywordNode => node_id r) (keywords st));
        [exact Hnd | exact Hin | exact Hk | congruence].
  - rewrite (select_none _ _ _ E). split; [|split].
    + split; [|reflexivity]. intros _ k Hk Hid.
      assert (has_key (fun r : KeywordNode => node_id r) (keywords st) id = true).
      { apply existsb_exists. exists k. split; [exact Hk | now apply String.eqb_eq]. }
      congruence.
    + discriminate.
    + intros _ k Hk Hid.
      assert (has_key (fun r : KeywordNode => node_id r) (keywords st) id = true).
      { apply existsb_exists. exists k. split; [exact Hk | now apply String.eqb_eq]. }
      congruence.
Qed.

Lemma get_keyword_finds_the_keyword_witness :
  get_keyword Sample.account_store "account"
  = Ok (Sample.kw "account" [Sample.f0; Sample.f1]).
Proof.
  refine (proj2 (proj2 (get_keyword_finds_the_keyword Sample.account_store "account"))
                _ (Sample.kw "account" [Sample.f0; Sample.f1]) _ _).
  - repeat constructor. easy.
  - now left.
  - reflexivity.
Defined.

(** X9: how [add_relation] and [get_relation_by_node] compose: the
    relations found at a node after a relation is added are those found
    before, followed by the new relation when its id was free and the node
    is its source or its target. *)
Theorem get_relation_by_node_after_add_relation
        (st : Store) (r : RelationEdge) (node : string) :
  get_relation_by_node (add_relation st r) node
  = get_relation_by_node st node
    ++ (if negb (has_key relation_id (relations st) (relation_id r))
           && (String.eqb (source r) node || String.eqb (target r) node)
        then [r] else []).
Proof.
  unfold get_relation_by_node, add_relation, insert_or_ignore. cbn [relations].
  fold (has_key relation_id (relations st) (relation_id r)).
  destruct (has_key relation_id (relations st) (relation_id r)).
  - now rewrite app_nil_r.
  - rewrite select_app. cbn [select filter negb andb].
    now destruct (String.eqb (source r) node || String.eqb (target r) node).
Qed.

(** ** [memory/sqlite_memory_manager.py]: [add_message] *)

Lemma fold_add_keyword (kws : list KeywordNode) (st : Store) :
  fold_left add_keyword kws st
  = mkStore (fold_left (fun t r => insert_or_ignore (fun k : KeywordNode => node_id k) r t)
                       kws (keywords st))
            (message_blocks st) (relations st).
Proof.
  revert st; induction kws as [|k kws IH]; intros st; simpl; [now destruct st|].
  now rewrite IH.
Qed.

Lemma fold_link_messages (rels : list RelationEdge) (st : Store) :
  fold_left link_messages rels st
  = mkStore (keywords st) (message_blocks st)
            (fold_left (fun t r => insert_or_ignore relation_id r t) rels (relations st)).
Proof.
  revert st; induction rels as [|r rels IH]; intros st; simpl; [now destruct st|].
  now rewrite IH.
Qed.

Lemma add_message_tables (st : Store) (b : MessageBlock)
      (kws : list KeywordNode) (rels : list RelationEdge) :
  add_message st b kws rels
  = mkStore
      (fold_left (fun t r => insert_or_ignore (fun k : KeywordNode => node_id k) r t)
                 kws (keywords st))
      (insert_or_ignore row_block_id
         (mkBlockRow (node_id b) (content b) (title b) (timestamp b) (embeddings b))
         (message_blocks st))
      (fold_left (fun t r => insert_or_ignore relation_id r t) rels (relations st)).
Proof.
  unfold add_message. rewrite fold_link_messages, fold_add_keyword. reflexivity.
Qed.

(** X10: [add_message] keeps the primary keys unique: over a store whose
    three tables have no id twice, whatever block, keywords and relations
    are added, also with ids repeated among them, no table has an id
    twice afterwards. *)
Theorem add_message_keeps_keys_unique (st : Store) (b : MessageBlock)
        (kws : list KeywordNode) (rels : list RelationEdge) :
  keys_unique st -> keys_unique (add_message st b kws rels).
Proof.
  intros (Hk & Hb & Hr). rewrite add_message_tables.
  unfold keys_unique. cbn [keywords message_blocks relations]. repeat split.
  - now apply (fold_insert_unique KeywordNode (fun k : KeywordNode => node_id k)).
  - now apply insert_or_ignore_unique.
  - now apply fold_insert_unique.
Qed.

Lemma add_message_keeps_keys_unique_witness :
  keys_unique
    (add_message empty_store
       (new_MessageBlock "t0" "msg-old" ["Felix: I opened an account in May"] "" "" None)
       [Sample.kw "account" [Sample.f0; Sample.f1];
        Sample.kw "account" [Sample.f1; Sample.f0]]
       [Sample.old_relation; Sample.old_relation]).
Proof.
  refine (add_message_keeps_keys_unique empty_store _ _ _ _).
  repeat split; constructor.
Defined.

(** X11: [add_message] only appends: each table of the store it returns
    begins with the table as it was, so no stored row is removed, moved or
    modified. *)
Theorem add_message_only_appends (st : Store) (b : MessageBlock)
        (kws : list KeywordNode) (rels : list RelationEdge) :
  begins (keywords st) (keywords (add_message st b kws rels))
  /\ begins (message_blocks st) (message_blocks (add_message st b kws rels))
  /\ begins (relations st) (relations (add_message st b kws rels)).
Proof.
  rewrite add_message_tables. cbn [keywords message_blocks relations]. repeat split.
  - apply fold_insert_begins.
  - apply insert_or_ignore_begins.
  - apply fold_insert_begins.
Qed.

(** X12: adding the same block with the same keywords and relations a
    second time changes nothing. *)
Theorem add_message_twice (st : Store) (b : MessageBlock)
        (kws : list KeywordNode) (rels : list RelationEdge) :
  add_message (add_message st b kws rels) b kws rels = add_message st b kws rels.
Proof.
  rewrite (add_message_tables (add_message st b kws rels)).
  rewrite add_message_tables at 4.
  rewrite (add_message_tables st). cbn [keywords message_blocks relations].
  f_equal.
  - apply fold_insert_noop. intros row Hrow.
    exact (fold_insert_has_keys KeywordNode (fun k : KeywordNode => node_id k)
                                kws (keywords st) row Hrow).
  - apply insert_or_ignore_twice.
  - apply fold_insert_noop. intros row Hrow. now apply fold_insert_has_keys.
Qed.

(** ** Blocks read back *)

Lemma prefix_split (p s : string) :
  String.prefix p s = true -> s = (p ++ string_drop (String.length p) s)%string.
Proof.
  revert s; induction p as [|x p IH]; intros s H; [now destruct s|].
  destruct s as [|y s]; simpl in H; [discriminate|].
  destruct (ascii_dec x y) as [->|]; [|discriminate].
  simpl. f_equal. now apply IH.
Qed.

Lemma string_drop_length (n : nat) (s : string) :
  String.length (string_drop n s) <= String.length s.
Proof.
  revert s; induction n as [|n IH]; intros [|c s]; simpl; try lia.
  specialize (IH s). lia.
Qed.

Lemma split_from_not_nil (sep : string) (skip : nat) (cur s : string) :
  split_from sep skip cur s <> [].
Proof.
  revert skip cur; induction s as [|c s IH]; intros skip cur; cbn [split_from]; [easy|].
  destruct skip; [|apply IH].
  destruct (String.prefix sep (String c s)); [easy | apply IH].
Qed.

Lemma join_cons (sep cur : string) (l : list string) :
  l <> [] -> join sep (cur :: l) = (cur ++ sep ++ join sep l)%string.
Proof. destruct l; [easy | reflexivity]. Qed.

Lemma join_split_from (sep : string) (n : nat) :
  sep <> EmptyString ->
  forall s cur, String.length s <= n ->
                join sep (split_from sep 0 cur s) = (cur ++ s)%string.
Proof.
  intros Hne. induction n as [|n IH]; intros s cur Hlen.
  - destruct s; simpl in Hlen; [|lia]. simpl. now rewrite append_empty_r.
  - destruct s as [|c s]; [simpl; now rewrite append_empty_r|].
    destruct (String.prefix sep (String c s)) eqn:Hp.
    + pose proof (prefix_split _ _ Hp) as Hs. rewrite Hs at 1.
      rewrite split_from_sep by exact Hne.
      rewrite join_cons by apply split_from_not_nil.
      rewrite IH.
      * cbn [append]. now rewrite <- Hs.
      * pose proof (string_drop_length (String.length sep) (String c s)) as Hd.
        assert (String.length (String c s)
                = String.length sep + String.length (string_drop (String.length sep)
                                                                 (String c s))).
        { rewrite Hs at 1. apply string_length_app. }
        destruct sep; [now elim Hne|]. simpl in *. lia.
    + cbn [split_from]. rewrite Hp. rewrite IH by (simpl in Hlen; lia).
      apply append_assoc_char.
Qed.

(** Joining the pieces of a split gives the string back. *)
Lemma join_split (sep s : string) :
  sep <> EmptyString -> join sep (split sep s) = s.
Proof.
  intros Hne. unfold split. now rewrite (join_split_from sep (String.length s) Hne).
Qed.

(** X8: [get_message_block] raises its ValueError exactly when no stored
    block has the id.  The block it returns is rebuilt from a stored row
    with the id: its messages are the pieces of the stored text, and its
    content, joined again from these pieces, is the stored text itself,
    whatever the text is; title and embedding are those of the row. *)
Theorem get_message_block_rebuilds_the_stored_row (now : string) (st : Store) (id : string) :
  (get_message_block now st id
   = Raise (ValueError ("Message block with ID " ++ id ++ " not found."))
   <-> forall row, In row (message_blocks st) -> row_block_id row <> id)
  /\ (forall b, get_message_block now st id = Ok b ->
      exists row, In row (message_blocks st)
                  /\ row_block_id row = id
                  /\ node_id b = id
                  /\ messages b = split MESSAGE_SEPERATOR (row_messages row)
                  /\ content b = row_messages row
                  /\ title b = row_title row
                  /\ embeddings b = row_embeddings row).
Proof.
  unfold get_message_block.
  destruct (has_key row_block_id (message_blocks st) id) eqn:E.
  - destruct (select_some _ _ _ E) as (r & rest & Hsel & Hin & Hid). rewrite Hsel. split.
    + split; [discriminate|]. intros H. now elim (H r Hin).
    + intros b [= <-]. exists r. repeat split; try assumption.
      cbn. apply join_split. discriminate.
  - rewrite (select_none _ _ _ E). split; [|discriminate].
    split; [|reflexivity]. intros _ row Hrow Hid.
    assert (has_key row_block_id (message_blocks st) id = true).
    { apply existsb_exists. exists row. split; [exact Hrow | now apply String.eqb_eq]. }
    congruence.
Qed.

Lemma get_message_block_rebuilds_the_stored_row_witness :
  exists row, In row (message_blocks Sample.account_store)
              /\ row_block_id row = "msg-old"
              /\ row_messages row = "Felix: I opened an account in May".
Proof.
  destruct (proj2 (get_message_block_rebuilds_the_stored_row "t" Sample.account_store
                     "msg-old")
                  (new_MessageBlock "t" "msg-old" ["Felix: I opened an account in May"]
                                    "t0" "" None) eq_refl)
    as (row & Hin & Hid & _ & _ & Hc & _).
  exists row. repeat split; [exact Hin | exact Hid | now rewrite <- Hc].
Defined.

(** ** [memory/sqlite_memory_manager.py]: the lexical search *)

Lemma dict_get_set (d : dict) (k v L : string) :
  dict_get (dict_set d k v) L = if String.eqb k L then [v] else dict_get d L.
Proof.
  induction d as [|[k' v'] d IH]; cbn [dict_set dict_get]; [reflexivity|].
  destruct (String.eqb_spec k' k) as [->|Hne]; cbn [dict_get].
  - now destruct (String.eqb k L).
  - rewrite IH. destruct (String.eqb_spec k' L) as [->|]; [|reflexivity].
    destruct (String.eqb_spec k L) as [->|]; [now elim Hne | reflexivity].
Qed.

(** The dictionary from labels to ids gives, for a label, the id of the
    last row that carries it. *)
Lemma dict_get_fold (rows : list KeywordNode) (d : dict) (L : string) :
  dict_get (fold_left (fun d (row : KeywordNode) => dict_set d (keyword row) (node_id row))
                      rows d) L
  = fold_left (fun acc (row : KeywordNode) =>
                 if String.eqb (keyword row) L then [node_id row] else acc)
              rows (dict_get d L).
Proof.
  revert d; induction rows as [|row rows IH]; intros d; cbn [fold_left]; [reflexivity|].
  now rewrite IH, dict_get_set.
Qed.

Lemma last_id_in (rows : list KeywordNode) (acc : list string) (L i : string) :
  In i (fold_left (fun acc (row : KeywordNode) =>
                     if String.eqb (keyword row) L then [node_id row] else acc)
                  rows acc) ->
  In i acc \/ exists row : KeywordNode, In row rows /\ keyword row = L /\ node_id row = i.
Proof.
  revert acc; induction rows as [|row rows IH]; intros acc; cbn [fold_left]; [now left|].
  intros H. apply IH in H as [H|(r & Hr & HL & Hi)].
  - destruct (String.eqb_spec (keyword row) L) as [HL|]; [|now left].
    destruct H as [<-|[]]. right. exists row. now repeat split; [left|..].
  - right. exists r. now repeat split; [right|..].
Qed.

Lemma last_id_unique_label (rows : list KeywordNode) (acc : list string) (k : KeywordNode) :
  NoDup (map keyword rows) -> In k rows ->
  fold_left (fun acc (row : KeywordNode) =>
               if String.eqb (keyword row) (keyword k) then [node_id row] else acc)
            rows acc
  = [node_id k].
Proof.
  revert acc; induction rows as [|row rows IH]; intros acc Hnd Hin; [easy|].
  cbn [map] in Hnd. inversion Hnd as [|? ? Hrow Hrows]; subst. cbn [fold_left].
  destruct Hin as [->|Hin]; [|now apply IH].
  rewrite String.eqb_refl. clear IH Hnd Hrows.
  generalize [node_id k] as a. induction rows as [|r rows IH]; intros a; [reflexivity|].
  cbn [fold_left]. destruct (String.eqb_spec (keyword r) (keyword k)) as [E|_].
  - elim Hrow. rewrite <- E. now left.
  - apply IH. intros H. apply Hrow. now right.
Qed.

Lemma dict_get_key (d : dict) (L : string) :
  dict_get d L <> [] -> In L (map fst d).
Proof.
  induction d as [|[k' v'] d IH]; cbn [dict_get map fst]; [easy|].
  destruct (String.eqb_spec k' L) as [->|_]; [now left | right; now apply IH].
Qed.

Section LexicalSearch.

Variable fuzz_ratio : string -> string -> Float64.float.

(** X13: the lexical search returns stored keywords only, and, for a
    query that is not empty over a table with unique ids, only keywords
    whose label scores at least the threshold against the query. *)
Theorem search_keywords_returns_matching_keywords
        (st : Store) (query : string) (threshold : Z) (k : KeywordNode) :
  In k (search_keywords fuzz_ratio st query threshold) ->
  In k (keywords st)
  /\ (NoDup (map (fun r : KeywordNode => node_id r) (keywords st)) ->
      query <> "" ->
      Float64.geb (fuzz_ratio query (keyword k)) (Float64.of_Z threshold) = true).
Proof.
  unfold search_keywords.
  destruct (String.eqb_spec query "") as [->|Hq].
  - intros H. apply filter_In in H as [H _]. split; [exact H | easy].
  - destruct (keywords st) as [|k0 ks] eqn:Ek; [easy|]. rewrite <- Ek. clear Ek k0 ks.
    intros H. apply select_in_In in H as [Hk Hid]. split; [exact Hk|].
    intros Hnd _. apply existsb_exists in Hid as (i & Hi & Heq).
    apply String.eqb_eq in Heq. subst i.
    apply in_flat_map in Hi as ([L score] & Hm & Hget). cbn [fst] in Hget.
    apply filter_In in Hm as [Hm Hscore]. cbn [snd] in Hscore.
    unfold extract in Hm. apply in_map_iff in Hm as (c & [= <- <-] & _).
    rewrite dict_get_fold in Hget. apply last_id_in in Hget as [[]|(row & Hrow & HL & Hi)].
    assert (row = k) as ->
      by (apply (unique_by_key (fun r : KeywordNode => node_id r) (keywords st));
          assumption).
    now rewrite HL.
Qed.

Lemma select_all {R : Type} (table : list R) : select (fun _ => true) table = table.
Proof.
  unfold select. induction table as [|r t IH]; simpl; [reflexivity | now rewrite IH].
Qed.

(** X14: the empty query returns every stored keyword; a query that is
    not empty returns every stored keyword whose label scores at least
    the threshold, when no two stored keywords carry the same label. *)
Theorem search_keywords_returns_every_match (st : Store) (query : string) (threshold : Z) :
  search_keywords fuzz_ratio st "" threshold = keywords st
  /\ (NoDup (map keyword (keywords st)) ->
      query <> "" ->
      forall k : KeywordNode,
        In k (keywords st) ->
        Float64.geb (fuzz_ratio query (keyword k)) (Float64.of_Z threshold) = true ->
        In k (search_keywords fuzz_ratio st query threshold)).
Proof.
  split; [apply select_all|].
  intros Hnd Hq k Hk Hscore. unfold search_keywords.
  destruct (String.eqb_spec query "") as [->|_]; [now elim Hq|].
  destruct (keywords st) as [|k0 ks] eqn:Ek; [easy|]. rewrite <- Ek in *. clear Ek k0 ks.
  match goal with
  | |- context [fold_left ?f (keywords st) []] => set (d := fold_left f (keywords st) [])
  end.
  assert (Hget : dict_get d (keyword k) = [node_id k]).
  { unfold d. rewrite dict_get_fold. now apply last_id_unique_label. }
  apply select_in_In. split; [exact Hk|].
  apply existsb_exists. exists (node_id k). split; [|apply String.eqb_refl].
  apply in_flat_map. exists (keyword k, fuzz_ratio query (keyword k)). split.
  - apply filter_In. split; [|exact Hscore].
    unfold extract.
    apply (in_map (fun choice => (choice, fuzz_ratio query choice))).
    apply dict_get_key. rewrite Hget. discriminate.
  - cbn [fst]. rewrite Hget. now left.
Qed.

End LexicalSearch.

Lemma search_keywords_returns_matching_keywords_witness :
  Float64.geb (Sample.indel_ratio "accounts" "account") (Float64.of_Z 70) = true.
Proof.
  refine (proj2 (search_keywords_returns_matching_keywords Sample.indel_ratio
                   Sample.account_store "accounts" 70
                   (Sample.kw "account" [Sample.f0; Sample.f1]) _) _ _).
  - vm_compute. now left.
  - repeat constructor. easy.
  - discriminate.
Defined.

Lemma search_keywords_returns_every_match_witness :
  In (Sample.kw "account" [Sample.f0; Sample.f1])
     (search_keywords Sample.indel_ratio Sample.account_store "accounts" 70).
Proof.
  refine (proj2 (search_keywords_returns_every_match Sample.indel_ratio
                   Sample.account_store "accounts" 70)
                _ _ (Sample.kw "account" [Sample.f0; Sample.f1]) _ _).
  - repeat constructor. easy.
  - discriminate.
  - now left.
  - vm_compute. reflexivity.
Defined.

(** ** [memory/sqlite_memory_manager.py]: the semantic search *)

(** X15: with a query that is not empty and stored embeddings that all
    have the length of the query, the semantic search never fails: the
    ranks it reads and the rows it takes at these ranks are always in
    range, and what it returns are stored keywords. *)
Theorem semantic_search_returns_stored_keywords
        (st : Store) (q : list Float64.float) (threshold : Float64.float) :
  q <> [] ->
  (forall k : KeywordNode, In k (keywords st) -> length (embeddings k) = length q) ->
  exists kws, search_keywords_by_embedding st q threshold = Ok kws
              /\ incl kws (keywords st)
              /\ length kws <= length (keywords st).
Proof.
  intros Hq Hdim.
  destruct (search_by_embedding_returns st q threshold Hq Hdim) as (kws & Hok & Hincl).
  exists kws. split; [exact Hok|]. split; [exact Hincl|].
  revert Hok. unfold search_keywords_by_embedding.
  destruct (Nat.eqb (length q) 0); [discriminate|].
  destruct (keywords st) as [|k0 ks] eqn:Ek; [intros [= <-]; simpl; lia|].
  destruct (Utils.sort_items_by_relevance _ _) as [[sims ranks]|]; cbn [bind]; [|discriminate].
  match goal with |- context [mapM ?f ?l] => destruct (mapM f l) end;
    cbn [bind]; [|discriminate].
  intros [= <-]. rewrite (Permutation_length (select_in_perm _ _ _)).
  exact (filter_length_le (fun k : KeywordNode => existsb (String.eqb (node_id k)) _)
                          (k0 :: ks)).
Qed.

Lemma semantic_search_returns_stored_keywords_witness :
  exists kws, search_keywords_by_embedding Sample.two_keywords [Sample.f1; Sample.f0]
                                           Sample.half = Ok kws
              /\ incl kws (keywords Sample.two_keywords)
              /\ length kws <= length (keywords Sample.two_keywords).
Proof.
  refine (semantic_search_returns_stored_keywords Sample.two_keywords
            [Sample.f1; Sample.f0] Sample.half _ _).
  - discriminate.
  - intros k [<-|[<-|[]]]; reflexivity.
Defined.

(** ** [run.py]: retrieval *)

(** Filtering relations keeps their ids distinct. *)
Lemma filter_keeps_ids_distinct (keep : RelationEdge -> bool) (rels : list RelationEdge) :
  NoDup (map relation_id rels) -> NoDup (map relation_id (filter keep rels)).
Proof.
  induction rels as [|r rels IH]; cbn [filter map]; [easy|].
  intros Hnd. inversion Hnd as [|? ? Hr Hrels]; subst.
  destruct (keep r); [|now apply IH]. cbn [map]. constructor; [|now apply IH].
  intros Hin. apply Hr. apply in_map_iff in Hin as (r' & Hid & Hin).
  apply in_map_iff. exists r'. split; [exact Hid|]. now apply filter_In in Hin as [Hin _].
Qed.

Lemma dedup_distinct (l : list RelationEdge) : NoDup (map relation_id (dedup l)).
Proof.
  induction l as [|r l IH]; cbn [dedup map]; constructor.
  - intros Hin. apply in_map_iff in Hin as (r' & Hid & Hin).
    apply filter_In in Hin as [_ Hne]. unfold RelationEdge_eq in Hne.
    rewrite Hid, String.eqb_refl in Hne. discriminate.
  - now apply filter_keeps_ids_distinct.
Qed.

Lemma dedup_represents (l : list RelationEdge) (r : RelationEdge) :
  In r l -> exists r', In r' (dedup l) /\ relation_id r' = relation_id r.
Proof.
  induction l as [|x l IH]; [easy|]. intros [->|Hin].
  - exists r. split; [now left | reflexivity].
  - destruct (IH Hin) as (r' & Hr' & Hid). cbn [dedup].
    destruct (String.eqb_spec (relation_id r') (relation_id x)) as [E|Hne].
    + exists x. split; [now left | congruence].
    + exists r'. split; [|exact Hid]. right. apply filter_In. split; [exact Hr'|].
      unfold RelationEdge_eq. now apply negb_true_iff, String.eqb_neq.
Qed.

Section MoreRetrieval.

Variable fuzz_ratio : string -> string -> Float64.float.
Variable embed_query : string -> list Float64.float.
Variable set_order : list RelationEdge -> list RelationEdge.
Variable dim : nat.

Hypothesis set_order_perm : forall l, Permutation (set_order l) l.
Hypothesis dim_positive : 0 < dim.
Hypothesis embed_dim : forall text, length (embed_query text) = dim.

(** X19: the list made of the set of the collected relations has no two
    relations with the same id, holds only collected relations, and has a
    relation for every id that was collected. *)
Theorem list_of_set_has_each_id_once (l : list RelationEdge) :
  NoDup (map relation_id (list_of_set set_order l))
  /\ incl (list_of_set set_order l) l
  /\ forall r, In r l ->
               exists r', In r' (list_of_set set_order l)
                          /\ relation_id r' = relation_id r.
Proof.
  unfold list_of_set. split; [|split].
  - eapply Permutation_NoDup; [|apply dedup_distinct].
    apply Permutation_map, Permutation_sym, set_order_perm.
  - intros r Hr. apply dedup_incl. eapply Permutation_in; [apply set_order_perm | exact Hr].
  - intros r Hr. destruct (dedup_represents l r Hr) as (r' & Hr' & Hid).
    exists r'. split; [|exact Hid].
    eapply Permutation_in; [apply Permutation_sym, set_order_perm | exact Hr'].
Qed.

(** X16: over a store whose embeddings all have the dimension of the
    embedding service, the retrieval returns a text whenever the
    decomposition gives a mapping within its three calls, and raises on
    the missing mapping otherwise: no ranking and no index fails. *)
Theorem retrieval_returns_unless_the_mapping_is_missing (st : Store) (model : llm) :
  uniform dim st ->
  (fst (generate_summary_dict model 3) = None ->
   retrieve_relevant_memory fuzz_ratio embed_query set_order st model
   = Raise AttributeError)
  /\ (forall query_dict,
        fst (generate_summary_dict model 3) = Some query_dict ->
        exists text, retrieve_relevant_memory fuzz_ratio embed_query set_order st model
                     = Ok text).
Proof.
  intros Hu. unfold retrieve_relevant_memory. split.
  - now intros ->.
  - intros query_dict ->.
    destruct (retrieve_loop_returns fuzz_ratio embed_query set_order dim
                set_order_perm dim_positive embed_dim st query_dict [] Hu) as (lines & ->).
    cbn [bind]. now eexists.
Qed.

End MoreRetrieval.

Lemma list_of_set_has_each_id_once_witness :
  NoDup (map relation_id
             (list_of_set (fun l => l) [Sample.old_relation; Sample.old_relation])).
Proof.
  refine (proj1 (list_of_set_has_each_id_once (fun l => l) _
                   [Sample.old_relation; Sample.old_relation])).
  intros l. apply Permutation_refl.
Defined.

Lemma retrieval_returns_unless_the_mapping_is_missing_witness :
  exists text,
    retrieve_relevant_memory Sample.indel_ratio Sample.embed (fun l => l)
                             Sample.two_mentions (Sample.replies Sample.three_components)
    = Ok text.
Proof.
  refine (proj2 (retrieval_returns_unless_the_mapping_is_missing
                   Sample.indel_ratio Sample.embed (fun l => l) 2 _ _ _
                   Sample.two_mentions (Sample.replies Sample.three_components) _)
                Sample.three_components _).
  - intros l. apply Permutation_refl.
  - lia.
  - intros text. unfold Sample.embed. now destruct (contains "open" text).
  - split.
    + intros k [<-|[]]. reflexivity.
    + intros r [<-|[<-|[]]]; reflexivity.
  - reflexivity.
Defined.

(** ** [run.py]: ingestion *)

Lemma begins_refl {A : Type} (l : list A) : begins l l.
Proof. exists []. now rewrite app_nil_r. Qed.

Lemma get_keyword_begins (st st' : Store) (id : string) (k : KeywordNode) :
  begins (keywords st) (keywords st') ->
  get_keyword st id = Ok k -> get_keyword st' id = Ok k.
Proof.
  intros Hb. unfold get_keyword.
  apply (select_begins _ (fun r : KeywordNode => String.eqb (node_id r) id)) in Hb
    as (more & ->).
  destruct (select _ (keywords st)); [discriminate | exact (fun H => H)].
Qed.

Lemma get_relation_begins (st st' : Store) (node : string) :
  begins (relations st) (relations st') ->
  begins (get_relation_by_node st node) (get_relation_by_node st' node).
Proof. apply select_begins. Qed.

Lemma string_app_inj_l (a b t : string) : (a ++ t = b ++ t)%string -> a = b.
Proof.
  revert b; induction a as [|x a IH]; intros [|y b] H.
  - reflexivity.
  - apply (f_equal String.length) in H. simpl in H. rewrite string_length_app in H. lia.
  - apply (f_equal String.length) in H. simpl in H. rewrite string_length_app in H. lia.
  - simpl in H. injection H as -> H. f_equal. now apply IH.
Qed.

Lemma str_of_nat_inj (n m : nat) : str_of_nat n = str_of_nat m -> n = m.
Proof.
  unfold str_of_nat. intros H. apply DecimalNat.Unsigned.to_uint_inj.
  apply (f_equal NilEmpty.uint_of_string) in H. rewrite !NilEmpty.usu in H. congruence.
Qed.

(** Rows with fresh and distinct keys are all in the table after they were
    inserted. *)
Lemma fold_insert_in {R : Type} (key : R -> string) (rows table : list R) :
  NoDup (map key rows) ->
  (forall row, In row rows -> has_key key table (key row) = false) ->
  forall row, In row rows ->
              In row (fold_left (fun t r => insert_or_ignore key r t) rows table).
Proof.
  revert table; induction rows as [|r rows IH]; intros table Hnd Hfresh row Hrow; [easy|].
  cbn [map] in Hnd. inversion Hnd as [|? ? Hr Hrows]; subst. cbn [fold_left].
  assert (Hins : insert_or_ignore key r table = table ++ [r]).
  { unfold insert_or_ignore. unfold has_key in Hfresh.
    now rewrite (Hfresh r (or_introl eq_refl)). }
  destruct Hrow as [->|Hrow].
  - destruct (fold_insert_begins R key rows (insert_or_ignore key row table)) as (more & ->).
    rewrite Hins. apply in_or_app; left. apply in_or_app; right. now left.
  - apply IH; [exact Hrows | | exact Hrow].
    intros row' Hrow'. rewrite Hins. unfold has_key. rewrite existsb_app. cbn.
    unfold has_key in Hfresh. rewrite (Hfresh row' (or_intror Hrow')).
    rewrite orb_false_r. apply String.eqb_neq. intros E. apply Hr. rewrite E.
    now apply in_map.
Qed.

Lemma ends_with_app (a suf : string) : ends_with suf (a ++ suf)%string = true.
Proof.
  induction a as [|c a IH]; cbn [append].
  - destruct suf; cbn [ends_with]; now rewrite String.eqb_refl.
  - cbn [ends_with]. now rewrite IH, orb_true_r.
Qed.

(** The ids made of a counter and one suffix are pairwise distinct. *)
Lemma numbered_ids_distinct {A : Type} (suffix : string) (items : list A) (start : nat) :
  NoDup (map (fun p : nat * A => (str_of_nat (fst p) ++ suffix)%string)
             (combine (seq start (length items)) items)).
Proof.
  revert start; induction items as [|x items IH]; intros start; cbn [length seq combine map];
    constructor; [|apply IH].
  intros Hin. apply in_map_iff in Hin as ([j y] & Hid & Hin). cbn [fst] in Hid.
  apply string_app_inj_l, str_of_nat_inj in Hid. subst j.
  apply in_combine_l in Hin. apply in_seq in Hin. lia.
Qed.

Section MoreIngestion.

Variable fuzz_ratio : string -> string -> Float64.float.
Variable embed_query : string -> list Float64.float.

(** X17: an ingestion never removes or changes a stored row: each table
    afterwards begins with the table before, so every keyword that could
    be read is read back unchanged, also one whose embedding the batch
    recomputed, every relation found at a node is still found, and the ids
    stay unique. *)
Theorem ingestion_keeps_the_stored_rows
        (t_id t_stamp : string) (msgs : list string) (st : Store) (model : llm) :
  let st' := fst (process_messages_and_save_to_memory fuzz_ratio embed_query
                    t_id t_stamp msgs st model) in
  (forall id k, get_keyword st id = Ok k -> get_keyword st' id = Ok k)
  /\ (forall node, begins (get_relation_by_node st node) (get_relation_by_node st' node))
  /\ begins (message_blocks st) (message_blocks st')
  /\ (keys_unique st -> keys_unique st').
Proof.
  unfold process_messages_and_save_to_memory.
  destruct (fst (generate_summary_dict model 3)) as [summary_dict|]; cbn [fst].
  - rewrite add_message_tables. cbn zeta. repeat split.
    + intros id k. apply get_keyword_begins. cbn [keywords]. apply fold_insert_begins.
    + intros node. apply get_relation_begins. cbn [relations]. apply fold_insert_begins.
    + cbn [message_blocks]. apply insert_or_ignore_begins.
    + apply (fold_insert_unique KeywordNode (fun k : KeywordNode => node_id k)), H.
    + apply insert_or_ignore_unique, H.
    + apply fold_insert_unique, H.
  - cbn zeta. repeat split; try (now apply H).
    + intros id k H. exact H.
    + intros node. apply begins_refl.
    + apply begins_refl.
Qed.

(** When no pair matches a stored keyword, the loop builds one keyword and
    one relation for each pair, numbered from the counter. *)
Lemma ingest_loop_all_new (st : Store) (block_id : string) (items : dict)
      (s : ingest_state) :
  (forall kv, In kv items -> search_keywords fuzz_ratio st (fst kv) 70 = []) ->
  fold_left (ingest_step fuzz_ratio embed_query st block_id) items s
  = mkIngest
      (ing_keywords s
       ++ map (fun kv => new_KeywordNode (fst kv) (fst kv) "" (Some (embed_query (snd kv))))
              items)
      (ing_relations s
       ++ map (fun p : nat * (string * string) =>
                 new_RelationEdge (str_of_nat (fst p) ++ "-" ++ block_id)%string
                                  (fst (snd p)) block_id "describes" (snd (snd p))
                                  (Some (embed_query (snd (snd p)))))
              (combine (seq (ing_cnt s) (length items)) items))
      (ing_cnt s + length items).
Proof.
  revert s; induction items as [|[k v] items IH]; intros s Hnew; cbn [fold_left].
  - destruct s. cbn. now rewrite !app_nil_r, Nat.add_0_r.
  - rewrite IH by (intros kv Hkv; apply Hnew; now right).
    pose proof (Hnew (k, v) (or_introl eq_refl)) as Hk. cbn [fst] in Hk.
    assert (Hstep : ingest_step fuzz_ratio embed_query st block_id s (k, v)
                    = mkIngest
                        (ing_keywords s
                         ++ [new_KeywordNode k k "" (Some (embed_query v))])
                        (ing_relations s
                         ++ [new_RelationEdge
                               (str_of_nat (ing_cnt s) ++ "-" ++ block_id)%string
                               k block_id "describes" v (Some (embed_query v))])
                        (S (ing_cnt s))).
    { unfold ingest_step. now rewrite Hk. }
    rewrite Hstep.
    cbn [ing_keywords ing_relations ing_cnt fst snd length seq combine map].
    rewrite <- !app_assoc. cbn [app]. f_equal. lia.
Qed.

(** X18: when none of the extracted keywords matches a stored keyword and
    no stored relation has an id ending in the id of the new block, the
    ingestion succeeds and the store holds, for the pair [(k, v)] at
    position [i] of the mapping, the relation with id [i-<block id>] from
    [k] to the block, typed "describes", described by [v] and embedded as
    [v] alone, and a keyword with id [k]. *)
Theorem ingestion_of_new_keywords_stores_every_relation
        (t_id t_stamp : string) (msgs : list string) (st : Store) (model : llm)
        (summary_dict : dict) :
  fst (generate_summary_dict model 3) = Some summary_dict ->
  (forall kv, In kv summary_dict -> search_keywords fuzz_ratio st (fst kv) 70 = []) ->
  (forall r i, In r (relations st) ->
               relation_id r <> (str_of_nat i ++ "-" ++ "msg-" ++ t_id)%string) ->
  let out := process_messages_and_save_to_memory fuzz_ratio embed_query
               t_id t_stamp msgs st model in
  snd out = Ok tt
  /\ forall i k v,
       nth_error summary_dict i = Some (k, v) ->
       In (new_RelationEdge (str_of_nat i ++ "-" ++ "msg-" ++ t_id)%string k
                            ("msg-" ++ t_id)%string "describes" v (Some (embed_query v)))
          (relations (fst out))
       /\ has_key (fun r : KeywordNode => node_id r) (keywords (fst out)) k = true.
Proof.
  intros Hdict Hnew Hfresh. unfold process_messages_and_save_to_memory.
  rewrite Hdict. cbn zeta. cbn [fst snd]. split; [reflexivity|].
  intros i k v Hi. rewrite add_message_tables. cbn [relations keywords].
  rewrite (ingest_loop_all_new st _ summary_dict _ Hnew).
  cbn [ing_keywords ing_relations ing_cnt app]. split.
  - apply fold_insert_in.
    + rewrite map_map.
      exact (numbered_ids_distinct ("-" ++ "msg-" ++ t_id) summary_dict 0).
    + intros row Hrow. apply in_map_iff in Hrow as ([j kv] & <- & _).
      cbn [relation_id new_RelationEdge fst].
      destruct (has_key relation_id (relations st) _) eqn:E; [|reflexivity].
      apply existsb_exists in E as (r & Hr & Heq). apply String.eqb_eq in Heq.
      now elim (Hfresh r j Hr).
    + apply in_map_iff. exists (i, (k, v)). split; [reflexivity|].
      apply in_combine_nth_error. exists i. split; [|exact Hi].
      assert (Hlt : i < length summary_dict)
        by (apply nth_error_Some; now rewrite Hi).
      rewrite nth_error_seq.
      destruct (Nat.ltb_spec i (length summary_dict)); [reflexivity | lia].
  - apply (fold_insert_has_keys KeywordNode (fun r : KeywordNode => node_id r) _ _
             (new_KeywordNode k k "" (Some (embed_query v)))).
    apply in_map_iff. exists (k, v). split; [reflexivity|].
    eapply nth_error_In; exact Hi.
Qed.

End MoreIngestion.

Lemma ingestion_keeps_the_stored_rows_witness :
  get_keyword Sample.two_mentions "account"
  = Ok (Sample.kw "account" [Sample.f0; Sample.f1]).
Proof.
  refine (proj1 (ingestion_keeps_the_stored_rows Sample.indel_ratio Sample.embed
                   "T" "T" ["Felix: I closed the account in June"; "Neko: noted"]
                   Sample.account_store
                   (Sample.replies [("account", "account: closed in June")]))
                "account" _ _).
  reflexivity.
Defined.

Lemma ingestion_of_new_keywords_stores_every_relation_witness :
  In (new_RelationEdge "1-msg-T" "cat" "msg-T" "describes" "cat: sleeps"
                       (Some (Sample.embed "cat: sleeps")))
     (relations
        (fst (process_messages_and_save_to_memory Sample.indel_ratio Sample.embed
                "T" "T" ["Felix: hi"; "Neko: hello"] Sample.account_store
                (Sample.replies [("dog", "dog: barks"); ("cat", "cat: sleeps")])))).
Proof.
  refine (proj1 (proj2 (ingestion_of_new_keywords_stores_every_relation
                          Sample.indel_ratio Sample.embed "T" "T"
                          ["Felix: hi"; "Neko: hello"] Sample.account_store
                          (Sample.replies [("dog", "dog: barks"); ("cat", "cat: sleeps")])
                          [("dog", "dog: barks"); ("cat", "cat: sleeps")] _ _ _)
                       1 "cat" "cat: sleeps" _)).
  - reflexivity.
  - intros kv [<-|[<-|[]]]; vm_compute; reflexivity.
  - intros r i [<-|[]] H. cbn [relation_id Sample.old_relation new_RelationEdge] in H.
    change (str_of_nat i ++ "-" ++ "msg-" ++ "T")%string
      with (str_of_nat i ++ "-msg-" ++ "T")%string in H.
    rewrite <- append_assoc3 in H.
    apply (f_equal (ends_with "T")) in H. rewrite ends_with_app in H. discriminate.
  - reflexivity.
Defined.

(** ** [run.py]: a round of chat *)

Lemma trim_history_keeps_the_end (history_length : Z) (l : list string) :
  exists dropped, l = dropped ++ trim_history history_length l.
Proof.
  unfold trim_history. destruct l as [|x l]; [now exists []|].
  destruct (history_length <=? Z.of_nat (length (x :: l)))%Z; [|now exists []].
  unfold slice_from_minus. destruct (0 <? history_length)%Z;
    eexists; symmetry; apply firstn_skipn.
Qed.

Lemma trim_history_length (history_length : Z) (l : list string) :
  (1 <= history_length)%Z ->
  length (trim_history history_length l) <= Z.to_nat history_length.
Proof.
  intros Hh. unfold trim_history. destruct l as [|x l]; [simpl; lia|].
  destruct (Z.leb_spec history_length (Z.of_nat (length (x :: l)))) as [Hle|Hgt].
  - unfold slice_from_minus. destruct (Z.ltb_spec 0 history_length); [|lia].
    rewrite length_skipn. lia.
  - lia.
Qed.

Lemma trim_history_zero (l : list string) : trim_history 0 l = l.
Proof.
  unfold trim_history. destruct l as [|x l]; [reflexivity|].
  destruct (Z.leb_spec 0 (Z.of_nat (length (x :: l)))); [reflexivity | lia].
Qed.

Section MoreChatRound.

Variable fuzz_ratio : string -> string -> Float64.float.
Variable embed_query : string -> list Float64.float.
Variable set_order : list RelationEdge -> list RelationEdge.
Variable history_length : Z.

(** X20: a round whose retrieval raises leaves the chatbot as it was.  A
    round whose retrieval returns ends the history with the new exchange,
    after an end of the old history; with a history length of at least
    one, the history then has at most that many entries plus two, however
    long it was; with a history length of zero it is never shortened. *)
Theorem chat_round_bounds_the_history
        (bot : MemoryChatbot) (user_input response : string)
        (decompose extract : llm) (t_id t_stamp : string) :
  let round := run_chat_round fuzz_ratio embed_query set_order history_length
                 bot user_input response decompose extract t_id t_stamp in
  (forall e, retrieve_relevant_memory fuzz_ratio embed_query set_order
               (memory_manager bot) decompose = Raise e ->
             round = (bot, Raise e))
  /\ (forall text,
        retrieve_relevant_memory fuzz_ratio embed_query set_order
          (memory_manager bot) decompose = Ok text ->
        (exists dropped kept,
            chat_history bot = dropped ++ kept
            /\ chat_history (fst round)
               = kept ++ [(USER_NAME ++ ": " ++ user_input)%string;
                          ("Neko: " ++ response)%string])
        /\ ((1 <= history_length)%Z ->
            length (chat_history (fst round)) <= Z.to_nat history_length + 2)
        /\ (history_length = 0%Z ->
            length (chat_history (fst round)) = length (chat_history bot) + 2)).
Proof.
  cbn zeta. unfold run_chat_round. split.
  - now intros e ->.
  - intros text ->.
    destruct (process_messages_and_save_to_memory _ _ _ _ _ _ _) as [st saved].
    cbn [fst chat_history]. split; [|split].
    + destruct (trim_history_keeps_the_end history_length (chat_history bot))
        as (dropped & Hd).
      now exists dropped, (trim_history history_length (chat_history bot)).
    + intros Hh. rewrite length_app. cbn [length].
      pose proof (trim_history_length history_length (chat_history bot) Hh). lia.
    + intros ->. rewrite trim_history_zero, length_app. reflexivity.
Qed.

End MoreChatRound.

(** Five entries and the default history length of two: four entries are
    left after the round. *)
Lemma chat_round_bounds_the_history_witness :
  length
    (chat_history
       (fst (run_chat_round Sample.indel_ratio Sample.embed (fun l => l) 2
               (mkMemoryChatbot ["a"; "b"; "c"; "d"; "e"] Sample.two_mentions)
               "when did I open it" "in May"
               (Sample.replies Sample.three_components)
               (Sample.replies [("account", "account: opened in May, says Neko")])
               "T2" "T2")))
  <= Z.to_nat 2 + 2.
Proof.
  refine (proj1 (proj2 (proj2 (chat_round_bounds_the_history
                                 Sample.indel_ratio Sample.embed (fun l => l) 2
                                 (mkMemoryChatbot ["a"; "b"; "c"; "d"; "e"]
                                                  Sample.two_mentions)
                                 "when did I open it" "in May"
                                 (Sample.replies Sample.three_components)
                                 (Sample.replies
                                    [("account", "account: opened in May, says Neko")])
                                 "T2" "T2")
                               _ _)) _).
  - vm_compute. reflexivity.
  - lia.
Defined.

(** ** [visualize/visualize_server.py] *)

Lemma py_take_len (n : nat) (s : string) : py_len (py_take n s) <= n.
Proof.
  revert n; induction s as [|c s IH]; intros n; cbn [py_take py_len]; [lia|].
  destruct (is_continuation c) eqn:Ec.
  - cbn [py_len]. rewrite Ec. apply IH.
  - destruct n as [|n]; cbn [py_len]; [lia|]. rewrite Ec. specialize (IH n). lia.
Qed.

Lemma py_take_prefix (n : nat) (s : string) : String.prefix (py_take n s) s = true.
Proof.
  revert n; induction s as [|c s IH]; intros n; cbn [py_take]; [reflexivity|].
  destruct (is_continuation c); [|destruct n as [|n]; [reflexivity|]];
    cbn [String.prefix]; (destruct (ascii_dec c c) as [_|Hne]; [apply IH | now elim Hne]).
Qed.

Lemma py_take_all (n : nat) (s : string) : py_len s <= n -> py_take n s = s.
Proof.
  revert n; induction s as [|c s IH]; intros n; cbn [py_take py_len]; [reflexivity|].
  destruct (is_continuation c).
  - intros H. now rewrite IH.
  - destruct n as [|n]; [lia|]. intros H. rewrite IH by lia. reflexivity.
Qed.

(** X21: the exported graph has one node for each stored keyword and then
    one for each stored block, under their ids, and one edge for each
    stored relation, with its id, its two ends, its type and its
    description, whether or not the ends are nodes.  The label of the
    node of a block is its title when it has one, and otherwise the
    beginning of its text, never more than 60 characters, and the whole
    text when the text has no more than 60 characters. *)
Theorem export_graph_mirrors_the_store (st : Store) :
  map vis_id (fst (export_graph st))
  = map (fun k : KeywordNode => node_id k) (keywords st)
    ++ map row_block_id (message_blocks st)
  /\ map (fun e => (vis_edge_id e, vis_from e, vis_to e, vis_edge_label e, vis_edge_title e))
         (snd (export_graph st))
     = map (fun r => (relation_id r, source r, target r, relation_type r, relation_desc r))
           (relations st)
  /\ forall n, In n (fst (export_graph st)) -> vis_shape n = "box" ->
       exists row, In row (message_blocks st)
                   /\ vis_id n = row_block_id row
                   /\ (row_title row <> "" -> vis_label n = row_title row)
                   /\ (row_title row = "" ->
                       py_len (vis_label n) <= 60
                       /\ String.prefix (vis_label n) (row_messages row) = true
                       /\ (py_len (row_messages row) <= 60 ->
                           vis_label n = row_messages row)).
Proof.
  unfold export_graph. cbn [fst snd]. split; [|split].
  - now rewrite map_app, !map_map.
  - now rewrite map_map.
  - intros n Hn Hshape. apply in_app_or in Hn as [Hn|Hn].
    + apply in_map_iff in Hn as (k & <- & _). discriminate.
    + apply in_map_iff in Hn as (row & <- & Hrow). exists row.
      cbn [vis_id vis_label]. unfold str_or.
      split; [exact Hrow|]. split; [reflexivity|]. split.
      * intros Ht. apply String.eqb_neq in Ht. now rewrite Ht.
      * intros Ht. rewrite Ht, String.eqb_refl. split; [|split].
        -- eapply Nat.le_trans; [apply py_take_len | apply Nat.le_min_r].
        -- apply py_take_prefix.
        -- intros Hlen. apply py_take_all. now rewrite Nat.min_l.
Qed.

(** A block whose text has 62 characters, the 60th of two bytes: the
    label has 60 characters, which are 61 bytes. *)
Lemma export_graph_mirrors_the_store_witness :
  exists row, In row (message_blocks Sample.accent_store)
              /\ "msg-accent" = row_block_id row
              /\ (row_title row <> "" -> Sample.accent_label = row_title row)
              /\ (row_title row = "" ->
                  py_len Sample.accent_label <= 60
                  /\ String.prefix Sample.accent_label (row_messages row) = true
                  /\ (py_len (row_messages row) <= 60 ->
                      Sample.accent_label = row_messages row)).
Proof.
  refine (proj2 (proj2 (export_graph_mirrors_the_store Sample.accent_store))
                (mkVisNode "msg-accent" Sample.accent_label
                           ("Timestamp: t0" ++ newline ++ Sample.accent_text) "box") _ _).
  - vm_compute. now left.
  - reflexivity.
Defined.

Lemma label_is_cut_by_characters :
  map vis_label (fst (export_graph Sample.accent_store)) = [Sample.accent_label]
  /\ py_len Sample.accent_text = 62
  /\ py_len Sample.accent_label = 60
  /\ String.length Sample.accent_label = 61.
Proof. repeat apply conj; vm_compute; reflexivity. Qed.

(** ** [run.py]: the block of an ingestion *)

Section IngestedBlock.

Variable fuzz_ratio : string -> string -> Float64.float.
Variable embed_query : string -> list Float64.float.

(** X22: after an ingestion that got its mapping, under a block id that
    was free, the block is read back from the store under the id "msg-"
    followed by the reading of the clock, with the messages joined by the
    separator as content, the embedding of that content, the second
    reading of the clock as timestamp and no title. *)
Theorem ingested_block_is_read_back
        (now t_id t_stamp : string) (msgs : list string) (st : Store) (model : llm)
        (summary_dict : dict) :
  fst (generate_summary_dict model 3) = Some summary_dict ->
  has_key row_block_id (message_blocks st) ("msg-" ++ t_id)%string = false ->
  t_stamp <> "" ->
  exists b,
    get_message_block now
      (fst (process_messages_and_save_to_memory fuzz_ratio embed_query
              t_id t_stamp msgs st model))
      ("msg-" ++ t_id)%string = Ok b
    /\ node_id b = ("msg-" ++ t_id)%string
    /\ content b = join MESSAGE_SEPERATOR msgs
    /\ embeddings b = embed_query (join MESSAGE_SEPERATOR msgs)
    /\ timestamp b = t_stamp
    /\ title b = "".
Proof.
  intros Hdict Hfresh Hstamp. unfold process_messages_and_save_to_memory.
  rewrite Hdict. cbn [fst]. rewrite add_message_tables.
  unfold get_message_block. cbn [message_blocks].
  match goal with
  | |- context [insert_or_ignore row_block_id ?row (message_blocks st)] =>
      pose proof (select_fresh row_block_id row (message_blocks st) Hfresh) as Hsel;
      cbn [row_block_id] in Hsel
  end.
  cbn [set_embeddings new_MessageBlock node_id block_base content title timestamp
       embeddings or_empty] in Hsel |- *.
  rewrite Hsel. eexists. split; [reflexivity|].
  cbn [new_MessageBlock node_id block_base content title timestamp embeddings or_empty
       row_block_id row_messages row_title row_timestamp row_embeddings].
  rewrite String.eqb_refl. repeat split.
  - apply join_split. discriminate.
  - apply String.eqb_neq in Hstamp. now rewrite Hstamp.
Qed.

End IngestedBlock.

Lemma ingested_block_is_read_back_witness :
  exists b,
    get_message_block "now" Sample.two_mentions "msg-T" = Ok b
    /\ node_id b = "msg-T"
    /\ content b = join MESSAGE_SEPERATOR
                        ["Felix: I closed the account in June"; "Neko: noted"]
    /\ embeddings b
       = Sample.embed (join MESSAGE_SEPERATOR
                            ["Felix: I closed the account in June"; "Neko: noted"])
    /\ timestamp b = "T"
    /\ title b = "".
Proof.
  refine (ingested_block_is_read_back Sample.indel_ratio Sample.embed "now" "T" "T"
            ["Felix: I closed the account in June"; "Neko: noted"]
            Sample.account_store
            (Sample.replies [("account", "account: closed in June")])
            [("account", "account: closed in June")] _ _ _).
  - reflexivity.
  - reflexivity.
  - discriminate.
Defined.
